(** * The connection pool of one Riak node (node.go)

    A shallow embedding of [Node]: its lifecycle state, its pool of idle
    connections and its two locks, with the operations [Start], [Stop],
    [Execute], [healthCheck] and one sweep of [expireIdleConnections].

    The code runs in the sequential semantics of one goroutine.  What
    lies outside node.go (the network, the connection object, the
    command factory, the clock) is an environment [Env] and a few
    bookkeeping fields of [World]. *)

From Stdlib Require Import ZArith String Lia.
From stdpp Require Import base option list.

Local Open Scope Z_scope.

(** ** Data *)

(** [type state byte], numbered by [iota]. *)
Inductive state : Set :=
| NODE_ERROR
| NODE_CREATED
| NODE_RUNNING
| NODE_HEALTH_CHECKING
| NODE_SHUTTING_DOWN
| NODE_SHUTDOWN.

Definition state_val (s : state) : Z :=
  match s with
  | NODE_ERROR => 0
  | NODE_CREATED => 1
  | NODE_RUNNING => 2
  | NODE_HEALTH_CHECKING => 3
  | NODE_SHUTTING_DOWN => 4
  | NODE_SHUTDOWN => 5
  end.

Definition state_eqb (a b : state) : bool := state_val a =? state_val b.
Definition state_ltb (a b : state) : bool := state_val a <? state_val b.

(** Go [error] values: the one node.go builds itself, and those handed
    up by the connection. *)
Inductive error : Type :=
| IllegalState (allowed : list state) (current : state)
| ConnError (code : nat).

(** A [Command] is an interface value holding a pointer; [cmdInst] is
    the identity of the instance behind it. *)
Inductive cmd_kind : Set := PingCommand | BuiltCommand | UserCommand.
Record Command : Set := mkCommand { cmdKind : cmd_kind; cmdInst : nat }.

(** [*connection]: the pointer ([connId]) and the two fields node.go
    touches. *)
Record connection : Set := mkConn {
  connId : nat;
  inFlight : bool;
  lastUsed : Z
}.

Definition set_inFlight (b : bool) (c : connection) : connection :=
  mkConn (connId c) b (lastUsed c).

(** [sync.RWMutex] as seen by one goroutine. *)
Record RWMutex : Set := mkRW { readers : nat; writer : bool }.

(** [*time.Ticker]. *)
Record Ticker : Set := mkTicker { ticking : bool }.

(** The fields of [Node] the operations read or write.  [addr],
    [connectTimeout] and [requestTimeout] are only copied into the
    options of [newConnection], whose outcome is the environment's. *)
Record Node : Type := mkNode {
  minConnections : Z;                        (* uint16 *)
  maxConnections : Z;                        (* uint16 *)
  idleTimeout : Z;                           (* time.Duration, int64 *)
  healthCheckBuilder : option unit;          (* nil, or a CommandBuilder *)
  expireTicker : option Ticker;              (* nil until Start sets it *)
  connMtx : bool;                            (* sync.Mutex: held? *)
  available : list (option connection);      (* []*connection *)
  currentNumConnections : Z;                 (* uint16 *)
  stateMtx : RWMutex;
  nodeState : state
}.

Definition uint16 (z : Z) : Prop := 0 <= z < 65536.
Definition wrap16 (z : Z) : Z := z mod 65536.

(** What one call of the network and of the connection object does. *)
Inductive dial_outcome : Type :=
| NewConnectionFails (e : error)               (* newConnection: nil, err *)
| ConnectFails (c : connection) (e : error)    (* conn.connect() fails *)
| Connects (c : connection).

Record exec_result : Type := mkExec {
  exec_inFlight : bool;
  exec_lastUsed : Z;
  exec_err : option error
}.

Record Env : Type := mkEnv {
  dial : nat -> option Command -> dial_outcome;   (* the i-th attempt *)
  conn_execute : connection -> Command -> exec_result;
  conn_close : connection -> option error
}.

(** The node together with what the run has done to its surroundings. *)
Record World : Type := mkWorld {
  node : Node;
  clock : Z;                           (* time.Now(), nanoseconds *)
  dials : nat;                         (* creation attempts so far *)
  dialLog : list (option Command);     (* the probe given to each *)
  allocs : nat;                        (* Command instances produced *)
  closedLog : list connection;         (* connections closed, in order *)
  expiring : bool;                     (* expireIdleConnections runs *)
  healthChecks : nat                   (* go n.healthCheck() spawned *)
}.

(** *** Field updates *)

Definition set_expireTicker (t : option Ticker) (n : Node) : Node :=
  mkNode (minConnections n) (maxConnections n) (idleTimeout n)
    (healthCheckBuilder n) t (connMtx n) (available n)
    (currentNumConnections n) (stateMtx n) (nodeState n).

Definition set_connMtx (b : bool) (n : Node) : Node :=
  mkNode (minConnections n) (maxConnections n) (idleTimeout n)
    (healthCheckBuilder n) (expireTicker n) b (available n)
    (currentNumConnections n) (stateMtx n) (nodeState n).

Definition set_available (l : list (option connection)) (n : Node) : Node :=
  mkNode (minConnections n) (maxConnections n) (idleTimeout n)
    (healthCheckBuilder n) (expireTicker n) (connMtx n) l
    (currentNumConnections n) (stateMtx n) (nodeState n).

Definition set_currentNumConnections (k : Z) (n : Node) : Node :=
  mkNode (minConnections n) (maxConnections n) (idleTimeout n)
    (healthCheckBuilder n) (expireTicker n) (connMtx n) (available n)
    k (stateMtx n) (nodeState n).

Definition set_stateMtx (m : RWMutex) (n : Node) : Node :=
  mkNode (minConnections n) (maxConnections n) (idleTimeout n)
    (healthCheckBuilder n) (expireTicker n) (connMtx n) (available n)
    (currentNumConnections n) m (nodeState n).

Definition set_nodeState (s : state) (n : Node) : Node :=
  mkNode (minConnections n) (maxConnections n) (idleTimeout n)
    (healthCheckBuilder n) (expireTicker n) (connMtx n) (available n)
    (currentNumConnections n) (stateMtx n) s.

Definition upd_node (f : Node -> Node) (w : World) : World :=
  mkWorld (f (node w)) (clock w) (dials w) (dialLog w) (allocs w)
    (closedLog w) (expiring w) (healthChecks w).

Definition set_clock (t : Z) (w : World) : World :=
  mkWorld (node w) t (dials w) (dialLog w) (allocs w)
    (closedLog w) (expiring w) (healthChecks w).

Definition log_dial (hc : option Command) (w : World) : World :=
  mkWorld (node w) (clock w) (S (dials w)) (dialLog w ++ [hc]) (allocs w)
    (closedLog w) (expiring w) (healthChecks w).

Definition bump_allocs (w : World) : World :=
  mkWorld (node w) (clock w) (dials w) (dialLog w) (S (allocs w))
    (closedLog w) (expiring w) (healthChecks w).

Definition log_close (c : connection) (w : World) : World :=
  mkWorld (node w) (clock w) (dials w) (dialLog w) (allocs w)
    (closedLog w ++ [c]) (expiring w) (healthChecks w).

Definition set_expiring (b : bool) (w : World) : World :=
  mkWorld (node w) (clock w) (dials w) (dialLog w) (allocs w)
    (closedLog w) b (healthChecks w).

Definition bump_healthChecks (w : World) : World :=
  mkWorld (node w) (clock w) (dials w) (dialLog w) (allocs w)
    (closedLog w) (expiring w) (S (healthChecks w)).

(** ** Running one goroutine *)

(** A call returns, panics, or waits forever ([Blocked]: a lock that is
    held, a channel nobody reads). *)
Inductive outcome (A : Type) : Type :=
| Done (a : A) (w : World)
| Panic (msg : string) (w : World)
| Blocked (w : World).
Arguments Done {A} a w.
Arguments Panic {A} msg w.
Arguments Blocked {A} w.

Definition act (A : Type) : Type := World -> outcome A.

Definition act_ret {A} (a : A) : act A := fun w => Done a w.

Definition act_bind {A B} (m : act A) (k : A -> act B) : act B :=
  fun w =>
    match m w with
    | Done a w' => k a w'
    | Panic msg w' => Panic msg w'
    | Blocked w' => Blocked w'
    end.

Declare Scope act_scope.
Delimit Scope act_scope with act.
Notation "x <- m ;; k" := (act_bind m (fun x => k))
  (at level 100, m at next level, right associativity) : act_scope.
Notation "m ;;; k" := (act_bind m (fun _ => k))
  (at level 100, right associativity) : act_scope.
Local Open Scope act_scope.

Definition modify (f : World -> World) : act unit := fun w => Done tt (f w).
Definition gets {A} (f : World -> A) : act A := fun w => Done (f w) w.
Definition panic {A} (msg : string) : act A := fun w => Panic msg w.

(** [defer d] placed before [body]: [d] runs when the function returns
    and when it panics, not when it never comes back. *)
Definition with_defer {A} (d : act unit) (body : act A) : act A :=
  fun w =>
    match body w with
    | Done a w' =>
        match d w' with
        | Done _ w'' => Done a w''
        | Panic msg w'' => Panic msg w''
        | Blocked w'' => Blocked w''
        end
    | Panic msg w' =>
        match d w' with
        | Done _ w'' => Panic msg w''
        | Panic msg' w'' => Panic msg' w''
        | Blocked w'' => Blocked w''
        end
    | Blocked w' => Blocked w'
    end.

(** *** The locks *)

Definition connMtx_Lock : act unit := fun w =>
  if connMtx (node w) then Blocked w
  else Done tt (upd_node (set_connMtx true) w).

Definition connMtx_Unlock : act unit := fun w =>
  if connMtx (node w) then Done tt (upd_node (set_connMtx false) w)
  else Panic "sync: unlock of unlocked mutex" w.

Definition stateMtx_RLock : act unit := fun w =>
  let m := stateMtx (node w) in
  if writer m then Blocked w
  else Done tt (upd_node (set_stateMtx (mkRW (S (readers m)) false)) w).

Definition stateMtx_RUnlock : act unit := fun w =>
  let m := stateMtx (node w) in
  match readers m with
  | O => Panic "sync: RUnlock of unlocked RWMutex" w
  | S r => Done tt (upd_node (set_stateMtx (mkRW r (writer m))) w)
  end.

Definition stateMtx_Lock : act unit := fun w =>
  let m := stateMtx (node w) in
  if writer m then Blocked w
  else match readers m with
       | O => Done tt (upd_node (set_stateMtx (mkRW O true)) w)
       | S _ => Blocked w
       end.

Definition stateMtx_Unlock : act unit := fun w =>
  let m := stateMtx (node w) in
  if writer m then Done tt (upd_node (set_stateMtx (mkRW (readers m) false)) w)
  else Panic "sync: Unlock of unlocked RWMutex" w.

(** [time.Time.Sub]: the difference, saturated to the range of a
    [Duration]. *)
Definition maxDuration : Z := 9223372036854775807.
Definition minDuration : Z := -9223372036854775808.
Definition time_Sub (t u : Z) : Z :=
  Z.max minDuration (Z.min maxDuration (t - u)).

(** Modelled from the spec: the constant [thirtySeconds] is declared
    outside node.go; it is the fixed interval of the ticker and of the
    sleep between two probes, thirty seconds as a [Duration]. *)
Definition thirtySeconds : Z := 30 * 1000000000.

Definition time_Sleep (d : Z) : act unit :=
  modify (fun w => set_clock (clock w + d) w).

(** ** The operations of node.go *)

Section NodeOps.

Context (env : Env).

(** [c.close()], recorded in the world's log. *)
Definition close (c : connection) : act (option error) :=
  fun w => Done (conn_close env c) (log_close c w).

Definition setState (s : state) : act unit :=
  stateMtx_Lock;;;
  with_defer stateMtx_Unlock
    (modify (upd_node (set_nodeState s))).

Definition stateCheck (allowed : list state) : act (option error) :=
  stateMtx_RLock;;;
  with_defer stateMtx_RUnlock
    (s <- gets (fun w => nodeState (node w));;
     let stateChecked := existsb (state_eqb s) allowed in
     act_ret (if stateChecked then None else Some (IllegalState allowed s))).

Definition getAvailableConnection : act (option connection) :=
  connMtx_Lock;;;
  with_defer connMtx_Unlock
    (av <- gets (fun w => available (node w));;
     match av with
     | [] => act_ret None
     | c :: rest =>
         modify (upd_node (set_available rest));;;
         act_ret c
     end).

Definition decr_currentNumConnections : act unit :=
  modify (upd_node (fun n =>
    set_currentNumConnections (wrap16 (currentNumConnections n - 1)) n)).

Definition incr_currentNumConnections : act unit :=
  modify (upd_node (fun n =>
    set_currentNumConnections (wrap16 (currentNumConnections n + 1)) n)).

Definition returnConnectionToPool (c : connection) (shouldLock : bool)
  : act unit :=
  let body :=
    s <- gets (fun w => nodeState (node w));;
    if state_ltb s NODE_SHUTTING_DOWN then
      modify (upd_node (fun n =>
        set_available (available n ++ [Some (set_inFlight false c)]) n))
    else
      decr_currentNumConnections;;;
      _ <- close c;;                      (* NB: discard error *)
      act_ret tt
  in
  if shouldLock then connMtx_Lock;;; with_defer connMtx_Unlock body
  else body.

(** The result pair [(conn, err)]. *)
Definition createNewConnection (healthCheck : option Command)
  : act (option connection * option error) :=
  i <- gets dials;;
  modify (log_dial healthCheck);;;
  match dial env i healthCheck with
  | NewConnectionFails e => act_ret (None, Some e)
  | ConnectFails c e => act_ret (Some c, Some e)
  | Connects c =>
      connMtx_Lock;;;
      with_defer connMtx_Unlock
        (incr_currentNumConnections;;;
         act_ret (Some c, None))
  end.

(** The loop of [Start].  [conn, err := ...] declares a new [err] that
    lives in the [if] statement only: the loop leaves the function's
    result [err] alone, so the loop has no value to hand on. *)
Fixpoint Start_loop (todo : nat) : act unit :=
  match todo with
  | O => act_ret tt
  | S todo' =>
      r <- createNewConnection None;;
      match r with
      | (conn, None) =>
          match conn with
          | None => panic "could not create connection in Start"
          | Some c =>
              returnConnectionToPool c false;;;
              Start_loop todo'
          end
      | (_, Some _) => act_ret tt          (* break *)
      end
  end.

Definition Start : act (option error) :=
  err <- stateCheck [NODE_CREATED];;
  match err with
  | Some _ => act_ret err
  | None =>
      connMtx_Lock;;;
      with_defer connMtx_Unlock
        (m <- gets (fun w => minConnections (node w));;
         Start_loop (Z.to_nat m);;;
         match err with
         | Some _ => act_ret err
         | None =>
             modify (upd_node (set_expireTicker (Some (mkTicker true))));;;
             modify (set_expiring true);;;   (* go n.expireIdleConnections() *)
             setState NODE_RUNNING;;;
             act_ret err
         end)
  end.

(** [for i, conn := range n.available]: the slice is read once, then
    slot [i] is cleared, the count drops and [conn] is closed; [err]
    keeps the result of the latest close only.  Closing a nil entry
    dereferences it. *)
Fixpoint shutdown_loop (i : nat) (l : list (option connection))
  (err : option error) : act (option error) :=
  match l with
  | [] => act_ret err
  | conn :: rest =>
      modify (upd_node (fun n =>
        set_available (<[i := None]> (available n)) n));;;
      decr_currentNumConnections;;;
      match conn with
      | None => panic "invalid memory address or nil pointer dereference"
      | Some c =>
          e <- close c;;
          shutdown_loop (S i) rest e
      end
  end.

Definition shutdown : act (option error) :=
  connMtx_Lock;;;
  with_defer connMtx_Unlock
    (av <- gets (fun w => available (node w));;
     err <- shutdown_loop 0 av None;;
     match err with
     | Some _ =>
         setState NODE_ERROR;;;
         act_ret err
     | None =>
         k <- gets (fun w => currentNumConnections (node w));;
         if k =? 0 then
           modify (upd_node (set_available []));;;
           setState NODE_SHUTDOWN;;;
           act_ret err
         else panic "Connections still in use."
     end).

(** [n.stop <- true]: the channel has no buffer, the send completes
    only when [expireIdleConnections] is there to receive, and that
    goroutine then returns. *)
Definition stop_send : act unit := fun w =>
  if expiring w then Done tt (set_expiring false w) else Blocked w.

Definition expireTicker_Stop : act unit := fun w =>
  match expireTicker (node w) with
  | None => Panic "invalid memory address or nil pointer dereference" w
  | Some _ => Done tt (upd_node (set_expireTicker (Some (mkTicker false))) w)
  end.

Definition Stop : act (option error) :=
  err <- stateCheck [NODE_CREATED; NODE_HEALTH_CHECKING];;
  match err with
  | Some _ => act_ret err
  | None =>
      stop_send;;;
      expireTicker_Stop;;;
      setState NODE_SHUTTING_DOWN;;;
      _ <- shutdown;;                      (* result not assigned *)
      act_ret err
  end.

(** [go n.healthCheck()]. *)
Definition go_healthCheck : act unit := modify bump_healthChecks.

(** The tail of [Execute], once [conn] is chosen, for a command that is
    not nil: [cmd.Name()], the argument of [logDebug] at line 215, then
    returns a string and leaves the node alone.  A [Command] that may be
    nil, on which [cmd.Name()] panics, is in [Execute_run_iface] and
    [Execute_iface] below. *)
Definition Execute_run (cmd : Command) (conn : option connection)
  : act (bool * option error) :=
  match conn with
  | None => panic "expected connection"
  | Some c =>
      let r := conn_execute env c cmd in
      let c' := mkConn (connId c) (exec_inFlight r) (exec_lastUsed r) in
      match exec_err r with
      | None =>
          returnConnectionToPool c' true;;;
          act_ret (true, None)
      | Some e =>
          returnConnectionToPool c' true;;;
          act_ret (false, Some e)
      end
  end.

Definition Execute (cmd : Command) : act (bool * option error) :=
  err <- stateCheck [NODE_RUNNING; NODE_HEALTH_CHECKING];;
  match err with
  | Some _ => act_ret (false, err)
  | None =>
      stateMtx_RLock;;;
      with_defer stateMtx_RUnlock
        (s <- gets (fun w => nodeState (node w));;
         if state_eqb s NODE_RUNNING then
           conn <- getAvailableConnection;;
           match conn with
           | Some _ => Execute_run cmd conn
           | None =>
               connMtx_Lock;;;
               with_defer connMtx_Unlock
                 (k <- gets (fun w => currentNumConnections (node w));;
                  m <- gets (fun w => maxConnections (node w));;
                  if k <? m then
                    r <- createNewConnection None;;
                    match r with
                    | (Some c, None) =>
                        connMtx_Unlock;;;
                        Execute_run cmd (Some c)
                    | (_, err') =>
                        go_healthCheck;;;
                        act_ret (false, err')
                    end
                  else act_ret (false, err))
           end
         else act_ret (false, err))
  end.

(** Modelled from the spec: [CommandBuilder] and [PingCommand] are
    declared outside node.go; the factory is a zero-argument factory
    producing a fresh [Command] instance per call, and [&PingCommand{}]
    allocates a new one as well.  [allocs] numbers the instances. *)
Definition new_Command (k : cmd_kind) : act Command :=
  i <- gets allocs;;
  modify bump_allocs;;;
  act_ret (mkCommand k i).

Definition getHealthCheckCommand : act Command :=
  b <- gets (fun w => healthCheckBuilder (node w));;
  match b with
  | Some _ => new_Command BuiltCommand
  | None => new_Command PingCommand
  end.

(** The endless [for] of [healthCheck], run for at most [fuel]
    attempts: [false] when all of them failed and the loop goes on. *)
Fixpoint healthCheck_loop (fuel : nat) (hc : Command) : act bool :=
  match fuel with
  | O => act_ret false
  | S fuel' =>
      r <- createNewConnection (Some hc);;
      match r with
      | (Some c, None) =>
          returnConnectionToPool c true;;;
          setState NODE_RUNNING;;;
          act_ret true
      | _ =>
          time_Sleep thirtySeconds;;;
          healthCheck_loop fuel' hc
      end
  end.

Definition healthCheck (fuel : nat) : act bool :=
  setState NODE_HEALTH_CHECKING;;;
  hc <- getHealthCheckCommand;;
  healthCheck_loop fuel hc.

(** One tick of [expireIdleConnections].  The loop either drops an
    entry or moves on, so [length available] rounds are enough;
    [None] would mean the rounds ran out. *)
Fixpoint expire_loop (fuel : nat) (now : Z) (i count : nat)
  : act (option nat) :=
  fun w =>
    let n := node w in
    if (i <? length (available n))%nat then
      match fuel with
      | O => Done None w
      | S fuel' =>
          if currentNumConnections n <=? minConnections n then
            Done (Some count) w                              (* break *)
          else
            match available n !! i with
            | None => Panic "index out of range" w
            | Some None =>
                Panic "invalid memory address or nil pointer dereference" w
            | Some (Some conn) =>
                if idleTimeout n <=? time_Sub now (lastUsed conn) then
                  let l := (length (available n) - 1)%nat in
                  let last := default None (available n !! l) in
                  (modify (upd_node (fun n =>
                     set_available (take l (<[i := last]> (available n))) n));;;
                   decr_currentNumConnections;;;
                   _ <- close conn;;
                   expire_loop fuel' now i (S count)) w
                else expire_loop fuel' now (S i) count w
            end
      end
    else Done (Some count) w.

Definition expireSweep : act (option nat) :=
  connMtx_Lock;;;
  now <- gets clock;;
  av <- gets (fun w => available (node w));;
  r <- expire_loop (length av) now 0 0;;
  connMtx_Unlock;;;
  act_ret r.

End NodeOps.

(** ** A small concrete setting, for running the code *)

Module Sample.

Definition connA : connection := mkConn 1 true 5.
Definition connB : connection := mkConn 2 true 7.
Definition connX : connection := mkConn 0 false 3.

Definition node0 : Node :=
  mkNode 3 10 1000 None None false [] 0 (mkRW 0 false) NODE_CREATED.

Definition world0 : World := mkWorld node0 100 0 [] 0 [] false 0.

(** A node in state [s] with the idle queue [av] and [k] live
    connections, after a completed start. *)
Definition running (s : state) (av : list (option connection)) (k : Z)
  : World :=
  mkWorld
    (mkNode 1 2 1000 None (Some (mkTicker true)) false av k
       (mkRW 0 false) s)
    100 0 [] 0 [] true 0.

(** Every dial connects; commands and closes succeed. *)
Definition env_ok : Env :=
  mkEnv (fun i _ => Connects (mkConn (10 + i) false 0))
        (fun c _ => mkExec false 50 None)
        (fun _ => None).

(** No dial connects; commands and closes fail. *)
Definition env_down : Env :=
  mkEnv (fun _ _ => NewConnectionFails (ConnError 7))
        (fun c _ => mkExec false 50 (Some (ConnError 8)))
        (fun _ => Some (ConnError 9)).

(** The first [k] dials fail at connect, the later ones connect. *)
Definition env_after (k : nat) : Env :=
  mkEnv (fun i _ => if (i <? k)%nat
                    then ConnectFails (mkConn (10 + i) false 0) (ConnError 7)
                    else Connects (mkConn (10 + i) false 0))
        (fun c _ => mkExec false 50 None)
        (fun _ => None).

(** Only the close of connection [bad] fails. *)
Definition env_close_fails (bad : nat) : Env :=
  mkEnv (fun i _ => Connects (mkConn (10 + i) false 0))
        (fun c _ => mkExec false 50 None)
        (fun c => if (connId c =? bad)%nat then Some (ConnError 9) else None).

Definition ping : Command := mkCommand UserCommand 0.

End Sample.

(** ** Basic facts about the primitives *)

(** No other goroutine holds a lock of the node. *)
Definition quiescent (w : World) : Prop :=
  connMtx (node w) = false /\ stateMtx (node w) = mkRW 0 false.

(** The world once [c] sits at the back of the idle queue, and the
    world once [c] was closed instead. *)
Definition pooled (c : connection) (w : World) : World :=
  upd_node (fun n =>
    set_available (available n ++ [Some (set_inFlight false c)]) n) w.

Definition dropped (c : connection) (w : World) : World :=
  log_close c (upd_node (fun n =>
    set_currentNumConnections (wrap16 (currentNumConnections n - 1)) n) w).

Ltac open_world w :=
  let n := fresh "n" in
  destruct w as [n ? ? ? ? ? ? ?]; destruct n; cbn in *; subst.

Ltac run :=
  cbv [act_bind act_ret with_defer modify gets panic
       connMtx_Lock connMtx_Unlock stateMtx_RLock stateMtx_RUnlock
       stateMtx_Lock stateMtx_Unlock]; cbn.

Section Primitives.

Context (env : Env).

Lemma stateCheck_eq (allowed : list state) (w : World) :
  writer (stateMtx (node w)) = false ->
  stateCheck allowed w =
    Done (if existsb (state_eqb (nodeState (node w))) allowed
          then None
          else Some (IllegalState allowed (nodeState (node w)))) w.
Proof.
  intros Hw. unfold stateCheck. open_world w.
  destruct stateMtx0 as [r wr]. cbn in Hw. subst wr. run. reflexivity.
Qed.

Lemma setState_eq (s : state) (w : World) :
  stateMtx (node w) = mkRW 0 false ->
  setState s w = Done tt (upd_node (set_nodeState s) w).
Proof.
  intros Hm. unfold setState. open_world w. run. reflexivity.
Qed.

Lemma getAvailableConnection_eq (w : World) :
  connMtx (node w) = false ->
  getAvailableConnection w =
    match available (node w) with
    | [] => Done None w
    | c :: rest => Done c (upd_node (set_available rest) w)
    end.
Proof.
  intros Hm. unfold getAvailableConnection. open_world w. run.
  destruct available0; reflexivity.
Qed.

Lemma returnConnectionToPool_eq (c : connection) (shouldLock : bool)
  (w : World) :
  (shouldLock = true -> connMtx (node w) = false) ->
  returnConnectionToPool env c shouldLock w =
    Done tt (if state_ltb (nodeState (node w)) NODE_SHUTTING_DOWN
             then pooled c w else dropped c w).
Proof.
  intros Hm. unfold returnConnectionToPool, pooled, dropped,
    decr_currentNumConnections, close.
  destruct shouldLock; [specialize (Hm eq_refl) | clear Hm];
    open_world w; run;
    destruct (state_ltb nodeState0 NODE_SHUTTING_DOWN); reflexivity.
Qed.

Lemma createNewConnection_eq (hc : option Command) (w : World) :
  createNewConnection env hc w =
    match dial env (dials w) hc with
    | NewConnectionFails e => Done (None, Some e) (log_dial hc w)
    | ConnectFails c e => Done (Some c, Some e) (log_dial hc w)
    | Connects c =>
        if connMtx (node w) then Blocked (log_dial hc w)
        else Done (Some c, None)
               (upd_node (fun n => set_currentNumConnections
                            (wrap16 (currentNumConnections n + 1)) n)
                  (log_dial hc w))
    end.
Proof.
  unfold createNewConnection, incr_currentNumConnections. open_world w. run.
  destruct (dial env dials0 hc); try reflexivity.
  run. destruct connMtx0; reflexivity.
Qed.

End Primitives.

(** ** Releasing a connection *)

Section Release.

Context (env : Env).

(** C10: a connection returned while the node is in ERROR is pooled,
    because ERROR is 0 in the enumeration and so below SHUTTING_DOWN:
    it goes to the back of the idle queue with its in-flight flag
    cleared, nothing is closed and the count stays.  Of the six states
    only SHUTTING_DOWN and SHUTDOWN close the returned connection and
    take one off the live count. *)
Theorem returnConnectionToPool_closes_only_in_shutdown
  (c : connection) (shouldLock : bool) (w : World) :
  (shouldLock = true -> connMtx (node w) = false) ->
  state_val NODE_ERROR = 0 /\
  state_val NODE_ERROR < state_val NODE_SHUTTING_DOWN /\
  exists w',
    returnConnectionToPool env c shouldLock w = Done tt w' /\
    match nodeState (node w) with
    | NODE_SHUTTING_DOWN | NODE_SHUTDOWN =>
        closedLog w' = closedLog w ++ [c] /\
        currentNumConnections (node w') =
          wrap16 (currentNumConnections (node w) - 1) /\
        available (node w') = available (node w)
    | NODE_ERROR | NODE_CREATED | NODE_RUNNING | NODE_HEALTH_CHECKING =>
        available (node w') =
          available (node w) ++ [Some (mkConn (connId c) false (lastUsed c))] /\
        closedLog w' = closedLog w /\
        currentNumConnections (node w') = currentNumConnections (node w)
    end.
Proof.
  intros Hm. split; [reflexivity | split; [reflexivity |]].
  eexists. split; [apply returnConnectionToPool_eq; exact Hm |].
  destruct (nodeState (node w)); cbn; auto.
Qed.

(** C9, as amended: a release with the state below SHUTTING_DOWN clears
    the in-flight flag and appends the connection to the back of the
    idle queue; the last-used timestamp is the one the connection came
    back with, whatever the clock says. *)
Theorem returnConnectionToPool_clears_inFlight
  (c : connection) (shouldLock : bool) (w : World) :
  (shouldLock = true -> connMtx (node w) = false) ->
  state_val (nodeState (node w)) < state_val NODE_SHUTTING_DOWN ->
  exists w',
    returnConnectionToPool env c shouldLock w = Done tt w' /\
    available (node w') =
      available (node w) ++ [Some (mkConn (connId c) false (lastUsed c))] /\
    closedLog w' = closedLog w /\
    currentNumConnections (node w') = currentNumConnections (node w) /\
    clock w' = clock w.
Proof.
  intros Hm Hs. eexists. split; [apply returnConnectionToPool_eq; exact Hm |].
  unfold state_ltb. apply Z.ltb_lt in Hs. rewrite Hs. cbn. auto.
Qed.

(** [k] acquires in a row, with what each returned. *)
Fixpoint acquire_n (k : nat) : act (list (option connection)) :=
  match k with
  | O => act_ret []
  | S k' =>
      c <- getAvailableConnection;;
      cs <- acquire_n k';;
      act_ret (c :: cs)
  end.

Lemma acquire_n_all (w : World) :
  connMtx (node w) = false ->
  acquire_n (length (available (node w))) w =
    Done (available (node w)) (upd_node (set_available []) w).
Proof.
  remember (available (node w)) as l eqn:Hl.
  revert w Hl. induction l as [| c l IH]; intros w Hl Hm.
  - cbn. unfold act_ret. f_equal. open_world w. reflexivity.
  - cbn [length acquire_n]. unfold act_bind at 1.
    rewrite getAvailableConnection_eq by exact Hm. rewrite <- Hl.
    unfold act_bind at 1.
    rewrite IH; [| open_world w; reflexivity ..].
    unfold act_ret. open_world w. reflexivity.
Qed.

(** C6, as amended: a release appends at the back and an acquire takes
    the front.  After A then B are released with no acquire in between,
    the acquires hand out the connections that were idle before, then
    A, then B; the very next acquire returns A when the queue was empty
    before A's release. *)
Theorem release_then_acquire_in_queue_order (A B : connection) (w : World) :
  connMtx (node w) = false ->
  state_val (nodeState (node w)) < state_val NODE_SHUTTING_DOWN ->
  let A' := mkConn (connId A) false (lastUsed A) in
  let B' := mkConn (connId B) false (lastUsed B) in
  let q := available (node w) in
  exists w1 w2,
    returnConnectionToPool env A true w = Done tt w1 /\
    returnConnectionToPool env B true w1 = Done tt w2 /\
    available (node w2) = q ++ [Some A'; Some B'] /\
    acquire_n (length q + 2) w2 =
      Done (q ++ [Some A'; Some B']) (upd_node (set_available []) w2) /\
    (q = [] ->
     getAvailableConnection w2 =
       Done (Some A') (upd_node (set_available [Some B']) w2)).
Proof.
  intros Hm Hs A' B' q. apply Z.ltb_lt in Hs.
  exists (pooled A w), (pooled B (pooled A w)).
  assert (Hav : available (node (pooled B (pooled A w))) =
                q ++ [Some A'; Some B']).
  { subst q. open_world w. rewrite <- app_assoc. reflexivity. }
  assert (Hm2 : connMtx (node (pooled B (pooled A w))) = false).
  { open_world w. reflexivity. }
  split.
  { rewrite returnConnectionToPool_eq by (intros _; exact Hm).
    unfold state_ltb. rewrite Hs. reflexivity. }
  split.
  { rewrite returnConnectionToPool_eq by (intros _; open_world w; reflexivity).
    replace (nodeState (node (pooled A w))) with (nodeState (node w))
      by (open_world w; reflexivity).
    unfold state_ltb. rewrite Hs. reflexivity. }
  split; [exact Hav |]. split.
  - replace (length q + 2)%nat
      with (length (available (node (pooled B (pooled A w))))).
    + rewrite acquire_n_all by exact Hm2. rewrite Hav. reflexivity.
    + rewrite Hav, length_app. reflexivity.
  - intros Hq. rewrite getAvailableConnection_eq by exact Hm2.
    rewrite Hav, Hq. reflexivity.
Qed.

End Release.

(** C9 fails as stated: a connection last used at time 5 and released
    at time 100 sits in the idle queue with timestamp 5. *)
Lemma returnConnectionToPool_keeps_lastUsed :
  ~ (forall (env : Env) (c : connection) (w : World),
       connMtx (node w) = false ->
       state_val (nodeState (node w)) < state_val NODE_SHUTTING_DOWN ->
       exists w',
         returnConnectionToPool env c true w = Done tt w' /\
         last (available (node w')) =
           Some (Some (mkConn (connId c) false (clock w)))).
Proof.
  intros H.
  destruct (H Sample.env_ok Sample.connA (Sample.running NODE_RUNNING [] 1))
    as (w' & Hrun & Hlast); [reflexivity | reflexivity |].
  vm_compute in Hrun. injection Hrun as <-. vm_compute in Hlast. discriminate.
Qed.

(** C6 fails as stated when the queue is not empty: with X idle, after
    A then B are released the next acquire returns X. *)
Lemma acquire_after_two_releases_returns_front :
  ~ (forall (env : Env) (A B : connection) (w w1 w2 : World),
       connMtx (node w) = false ->
       state_val (nodeState (node w)) < state_val NODE_SHUTTING_DOWN ->
       returnConnectionToPool env A true w = Done tt w1 ->
       returnConnectionToPool env B true w1 = Done tt w2 ->
       exists c w3,
         getAvailableConnection w2 = Done (Some c) w3 /\
         connId c = connId A).
Proof.
  intros H.
  destruct (H Sample.env_ok Sample.connA Sample.connB
              (Sample.running NODE_RUNNING [Some Sample.connX] 3) _ _
              eq_refl eq_refl eq_refl eq_refl) as (c & w3 & Hget & Hid).
  vm_compute in Hget. injection Hget as <- _. discriminate.
Qed.

Lemma returnConnectionToPool_closes_only_in_shutdown_witness :
  exists w',
    returnConnectionToPool Sample.env_down Sample.connA true
      (Sample.running NODE_ERROR [Some Sample.connX] 2) = Done tt w' /\
    available (node w') = [Some Sample.connX; Some (mkConn 1 false 5)] /\
    closedLog w' = [].
Proof.
  destruct (returnConnectionToPool_closes_only_in_shutdown Sample.env_down
              Sample.connA true
              (Sample.running NODE_ERROR [Some Sample.connX] 2))
    as (_ & _ & w' & Hrun & Hav & Hcl & _); [reflexivity |].
  exists w'. split; [exact Hrun |]. split; [exact Hav | exact Hcl].
Defined.

Lemma returnConnectionToPool_clears_inFlight_witness :
  exists w',
    returnConnectionToPool Sample.env_ok Sample.connA true
      (Sample.running NODE_RUNNING [] 1) = Done tt w' /\
    available (node w') = [Some (mkConn 1 false 5)].
Proof.
  destruct (returnConnectionToPool_clears_inFlight Sample.env_ok
              Sample.connA true (Sample.running NODE_RUNNING [] 1))
    as (w' & Hrun & Hav & _); [reflexivity | reflexivity |].
  exists w'. split; [exact Hrun | exact Hav].
Defined.

Lemma release_then_acquire_in_queue_order_witness :
  exists w2,
    acquire_n 3 w2 =
      Done [Some Sample.connX; Some (mkConn 1 false 5); Some (mkConn 2 false 7)]
        (upd_node (set_available []) w2).
Proof.
  destruct (release_then_acquire_in_queue_order Sample.env_ok
              Sample.connA Sample.connB
              (Sample.running NODE_RUNNING [Some Sample.connX] 3))
    as (w1 & w2 & _ & _ & _ & Hacq & _); [reflexivity | reflexivity |].
  exists w2. exact Hacq.
Defined.

(** ** Dispatch *)

Section Dispatch.

Context (env : Env).

(** The connection as [conn.execute] leaves it. *)
Definition after_execute (c : connection) (cmd : Command) : connection :=
  mkConn (connId c) (exec_inFlight (conn_execute env c cmd))
    (exec_lastUsed (conn_execute env c cmd)).

Lemma Execute_run_eq (cmd : Command) (c : connection) (w : World) :
  connMtx (node w) = false ->
  Execute_run env cmd (Some c) w =
    Done (match exec_err (conn_execute env c cmd) with
          | None => (true, None)
          | Some e => (false, Some e)
          end)
         (if state_ltb (nodeState (node w)) NODE_SHUTTING_DOWN
          then pooled (after_execute c cmd) w
          else dropped (after_execute c cmd) w).
Proof.
  intros Hm. unfold Execute_run.
  destruct (exec_err (conn_execute env c cmd));
    unfold act_bind;
    rewrite returnConnectionToPool_eq by (intros _; exact Hm);
    reflexivity.
Qed.

Local Arguments Execute_run : simpl never.

(** C4: [Execute] answers "not executed" with a nil error, at once and
    leaving the world as it found it, in both cases: the state passes
    the coarse check but is not RUNNING (it is HEALTH_CHECKING), and
    the state is RUNNING while the idle queue is empty and the live
    count has reached the maximum. *)
Theorem Execute_rejects_without_effect (cmd : Command) (w : World) :
  connMtx (node w) = false ->
  writer (stateMtx (node w)) = false ->
  (existsb (state_eqb (nodeState (node w)))
     [NODE_RUNNING; NODE_HEALTH_CHECKING] = true /\
   nodeState (node w) <> NODE_RUNNING)
  \/ (nodeState (node w) = NODE_RUNNING /\
      available (node w) = [] /\
      maxConnections (node w) <= currentNumConnections (node w)) ->
  Execute env cmd w = Done (false, None) w.
Proof.
  intros Hm Hw Hcase. unfold Execute. unfold act_bind at 1.
  rewrite stateCheck_eq by exact Hw.
  destruct Hcase as [[Hin Hne] | (Hs & Hav & Hmax)].
  - rewrite Hin.
    destruct (nodeState (node w)) eqn:Hs; try discriminate; try congruence.
    open_world w. destruct stateMtx0 as [r wr]. cbn in Hw. subst wr.
    run. reflexivity.
  - rewrite Hs. cbn [existsb state_eqb state_val Z.eqb orb].
    apply Z.leb_le in Hmax.
    open_world w. destruct stateMtx0 as [r wr]. cbn in Hw. subst wr.
    run. rewrite Z.ltb_antisym, Hmax. reflexivity.
Qed.

(** C5: when the command fails on the connection [Execute] holds, the
    result is "not executed" with the command's error and the
    connection goes to the back of the idle queue, nothing being closed
    or taken off the count: for any held connection while the state is
    below SHUTTING_DOWN, and so for the dispatch that took the
    connection from the front of the queue. *)
Theorem Execute_failed_command_returns_connection
  (cmd : Command) (c : connection) (rest : list (option connection))
  (e : error) (w : World) :
  connMtx (node w) = false ->
  writer (stateMtx (node w)) = false ->
  exec_err (conn_execute env c cmd) = Some e ->
  let c' := mkConn (connId c) false (exec_lastUsed (conn_execute env c cmd)) in
  (state_val (nodeState (node w)) < state_val NODE_SHUTTING_DOWN ->
   Execute_run env cmd (Some c) w =
     Done (false, Some e)
       (upd_node (fun n => set_available (available n ++ [Some c']) n) w))
  /\
  (nodeState (node w) = NODE_RUNNING ->
   available (node w) = Some c :: rest ->
   Execute env cmd w =
     Done (false, Some e)
       (upd_node (set_available (rest ++ [Some c'])) w)).
Proof.
  intros Hm Hw He c'. split.
  - intros Hs. apply Z.ltb_lt in Hs.
    rewrite Execute_run_eq by exact Hm. rewrite He.
    unfold state_ltb. rewrite Hs. reflexivity.
  - intros Hs Hav. unfold Execute. unfold act_bind at 1.
    rewrite stateCheck_eq by exact Hw. rewrite Hs.
    cbn [existsb state_eqb state_val Z.eqb orb].
    open_world w. destruct stateMtx0 as [r wr]. cbn in Hw. subst wr.
    run. unfold getAvailableConnection. run.
    rewrite Execute_run_eq by reflexivity. rewrite He. reflexivity.
Qed.

(** Taking the creation path, [Execute] holds [connMtx] when
    [createNewConnection] asks for it again: a dial that connects never
    gets back to the caller. *)
Lemma Execute_blocks_on_new_connection
  (cmd : Command) (c : connection) (w : World) :
  connMtx (node w) = false ->
  writer (stateMtx (node w)) = false ->
  nodeState (node w) = NODE_RUNNING ->
  available (node w) = [] ->
  currentNumConnections (node w) < maxConnections (node w) ->
  dial env (dials w) None = Connects c ->
  exists w', Execute env cmd w = Blocked w'.
Proof.
  intros Hm Hw Hs Hav Hlt Hd. unfold Execute. unfold act_bind at 1.
  rewrite stateCheck_eq by exact Hw. rewrite Hs.
  cbn [existsb state_eqb state_val Z.eqb orb].
  apply Z.ltb_lt in Hlt.
  open_world w. destruct stateMtx0 as [r wr]. cbn in Hw. subst wr.
  run. rewrite Hlt. unfold createNewConnection. run. rewrite Hd. run.
  eexists. reflexivity.
Qed.

End Dispatch.

Lemma Execute_rejects_without_effect_witness :
  Execute Sample.env_ok Sample.ping
    (Sample.running NODE_HEALTH_CHECKING [Some Sample.connA] 1) =
    Done (false, None)
      (Sample.running NODE_HEALTH_CHECKING [Some Sample.connA] 1)
  /\ Execute Sample.env_ok Sample.ping (Sample.running NODE_RUNNING [] 2) =
       Done (false, None) (Sample.running NODE_RUNNING [] 2).
Proof.
  split.
  - apply Execute_rejects_without_effect;
      [reflexivity | reflexivity | left; split; [reflexivity | discriminate]].
  - apply Execute_rejects_without_effect;
      [reflexivity | reflexivity |
       right; split; [reflexivity | split; [reflexivity | cbn; lia]]].
Defined.

Lemma Execute_failed_command_returns_connection_witness :
  Execute Sample.env_down Sample.ping
    (Sample.running NODE_RUNNING [Some Sample.connA; Some Sample.connB] 2) =
    Done (false, Some (ConnError 8))
      (Sample.running NODE_RUNNING
         [Some Sample.connB; Some (mkConn 1 false 50)] 2).
Proof.
  exact (proj2 (Execute_failed_command_returns_connection Sample.env_down
                  Sample.ping Sample.connA [Some Sample.connB] (ConnError 8)
                  (Sample.running NODE_RUNNING
                     [Some Sample.connA; Some Sample.connB] 2)
                  eq_refl eq_refl eq_refl) eq_refl eq_refl).
Defined.

(** ** Start and Stop *)

Module StartStop.

(** The second dial fails, every other one connects. *)
Definition env_second_fails : Env :=
  mkEnv (fun i _ => if (i =? 1)%nat
                    then NewConnectionFails (ConnError 7)
                    else Connects (mkConn (10 + i) false 0))
        (fun c _ => mkExec false 50 None)
        (fun _ => None).

Section Facts.

Context (env : Env).

(** When the first creation fails, the loop breaks with the function's
    own [err] still nil, and [Start] goes on to RUNNING. *)
Lemma Start_first_dial_fails (w : World) :
  quiescent w ->
  nodeState (node w) = NODE_CREATED ->
  1 <= minConnections (node w) ->
  (forall c, dial env (dials w) None <> Connects c) ->
  Start env w =
    Done None
      (upd_node (set_nodeState NODE_RUNNING)
         (set_expiring true
            (upd_node (set_expireTicker (Some (mkTicker true)))
               (log_dial None w)))).
Proof.
  intros [Hm Hs] Hst Hmin Hd. unfold Start. unfold act_bind at 1.
  rewrite stateCheck_eq by (rewrite Hs; reflexivity). rewrite Hst.
  cbn [existsb state_eqb state_val Z.eqb orb].
  destruct (Z.to_nat (minConnections (node w))) as [| k] eqn:Hk; [lia |].
  open_world w. run. rewrite Hk. cbn [Start_loop].
  unfold createNewConnection. run.
  destruct (dial env dials0 None) as [e | c e | c] eqn:Hdial.
  - run. unfold setState. run. reflexivity.
  - run. unfold setState. run. reflexivity.
  - exfalso. exact (Hd c eq_refl).
Qed.

(** When the first creation connects, [createNewConnection] asks for
    the lock [Start] holds. *)
Lemma Start_blocks_on_first_connection (c : connection) (w : World) :
  quiescent w ->
  nodeState (node w) = NODE_CREATED ->
  1 <= minConnections (node w) ->
  dial env (dials w) None = Connects c ->
  Start env w = Blocked (upd_node (set_connMtx true) (log_dial None w)).
Proof.
  intros [Hm Hs] Hst Hmin Hd. unfold Start. unfold act_bind at 1.
  rewrite stateCheck_eq by (rewrite Hs; reflexivity). rewrite Hst.
  cbn [existsb state_eqb state_val Z.eqb orb].
  destruct (Z.to_nat (minConnections (node w))) as [| k] eqn:Hk; [lia |].
  open_world w. run. rewrite Hk. cbn [Start_loop].
  unfold createNewConnection. run. rewrite Hd. run. reflexivity.
Qed.

(** An error returned by [Stop] is the illegal-state error of its own
    check, and then nothing was done: what [shutdown] returns is
    dropped. *)
Lemma Stop_error_is_illegal_state (w w' : World) (e : error) :
  writer (stateMtx (node w)) = false ->
  Stop env w = Done (Some e) w' ->
  e = IllegalState [NODE_CREATED; NODE_HEALTH_CHECKING] (nodeState (node w))
  /\ w' = w.
Proof.
  intros Hw. unfold Stop. unfold act_bind at 1.
  rewrite stateCheck_eq by exact Hw.
  destruct (existsb _ _).
  - unfold act_bind, act_ret.
    repeat match goal with
           | |- context [match ?x with _ => _ end] =>
               lazymatch x with
               | context [match _ with _ => _ end] => fail
               | _ => destruct x
               end
           end; discriminate.
  - unfold act_ret. intros H. injection H as <- <-. split; reflexivity.
Qed.

End Facts.

(** C1 (the code departs from it): with a minimum of 3 and the first
    creation failing, [Start] returns nil, not the creation error, and
    the node is RUNNING with an empty pool and the expiration activity
    started; with the first creation connecting and the second one due
    to fail, [Start] never returns, stuck on [connMtx] at the first
    connection, the state still CREATED and nothing pooled. *)
Theorem Start_loses_creation_error :
  (exists w',
     Start Sample.env_down Sample.world0 = Done None w' /\
     nodeState (node w') = NODE_RUNNING /\
     available (node w') = [] /\
     currentNumConnections (node w') = 0 /\
     expiring w' = true /\
     dials w' = 1%nat)
  /\
  (exists w',
     Start env_second_fails Sample.world0 = Blocked w' /\
     nodeState (node w') = NODE_CREATED /\
     available (node w') = [] /\
     dials w' = 1%nat).
Proof.
  split; eexists; (split; [vm_compute; reflexivity |]); cbn; auto.
Qed.

(** C3 (the code departs from it): [Stop] on a HEALTH_CHECKING node
    whose only idle connection fails to close ends in ERROR but returns
    nil; and when the first of two closes fails and the second
    succeeds, the failure is forgotten: the node ends in SHUTDOWN and
    [Stop] returns nil. *)
Theorem Stop_loses_close_error :
  (exists w',
     Stop Sample.env_down
       (Sample.running NODE_HEALTH_CHECKING [Some Sample.connA] 1) =
       Done None w' /\
     nodeState (node w') = NODE_ERROR /\
     closedLog w' = [Sample.connA] /\
     conn_close Sample.env_down Sample.connA = Some (ConnError 9))
  /\
  (exists w',
     Stop (Sample.env_close_fails 1)
       (Sample.running NODE_HEALTH_CHECKING
          [Some Sample.connA; Some Sample.connB] 2) =
       Done None w' /\
     nodeState (node w') = NODE_SHUTDOWN /\
     closedLog w' = [Sample.connA; Sample.connB] /\
     conn_close (Sample.env_close_fails 1) Sample.connA = Some (ConnError 9)).
Proof.
  split; eexists; (split; [vm_compute; reflexivity |]); cbn; auto.
Qed.

End StartStop.

(** ** Idle expiration *)

Section Expire.

Context (env : Env).

(** The world in which a call ends, whichever way it ends. *)
Definition final_world {A} (o : outcome A) : World :=
  match o with
  | Done _ w => w
  | Panic _ w => w
  | Blocked w => w
  end.

(** [conn] is due for expiration at time [now]. *)
Definition stale (timeout now : Z) (conn : connection) : Prop :=
  timeout <= time_Sub now (lastUsed conn).

(** No connection held by the entry is due. *)
Definition fresh (timeout now : Z) (entry : option connection) : Prop :=
  forall conn, entry = Some conn -> ~ stale timeout now conn.

(** The removal at index [i]: the last entry moves to [i], the slice
    shrinks by one, the count drops, the connection is closed. *)
Definition expire_remove (i : nat) (conn : connection) (w : World) : World :=
  log_close conn
    (upd_node (fun n =>
       set_currentNumConnections (wrap16 (currentNumConnections n - 1))
         (set_available
            (take (length (available n) - 1)
               (<[i := default None
                         (available n !! (length (available n) - 1)%nat)]>
                  (available n))) n)) w).

Lemma expire_loop_S (fuel : nat) (now : Z) (i count : nat) (w : World) :
  expire_loop env (S fuel) now i count w =
    if (i <? length (available (node w)))%nat then
      if currentNumConnections (node w) <=? minConnections (node w) then
        Done (Some count) w
      else
        match available (node w) !! i with
        | None => Panic "index out of range" w
        | Some None =>
            Panic "invalid memory address or nil pointer dereference" w
        | Some (Some conn) =>
            if idleTimeout (node w) <=? time_Sub now (lastUsed conn) then
              expire_loop env fuel now i (S count) (expire_remove i conn w)
            else expire_loop env fuel now (S i) count w
        end
    else Done (Some count) w.
Proof. reflexivity. Qed.

Lemma expire_loop_O (now : Z) (i count : nat) (w : World) :
  expire_loop env O now i count w =
    if (i <? length (available (node w)))%nat then Done None w
    else Done (Some count) w.
Proof. reflexivity. Qed.

Lemma wrap16_pred (k m : Z) :
  uint16 k -> 0 <= m -> m < k -> wrap16 (k - 1) = k - 1.
Proof.
  unfold uint16, wrap16. intros Hk Hm Hlt. apply Z.mod_small. lia.
Qed.

(** Whatever the loop does and however it ends, the count only goes
    down, and never from above the minimum to below it. *)
Lemma expire_loop_bounds (fuel : nat) (now : Z) :
  forall (i count : nat) (w : World),
    uint16 (currentNumConnections (node w)) ->
    0 <= minConnections (node w) ->
    let w' := final_world (expire_loop env fuel now i count w) in
    minConnections (node w') = minConnections (node w) /\
    connMtx (node w') = connMtx (node w) /\
    Z.min (currentNumConnections (node w)) (minConnections (node w))
      <= currentNumConnections (node w') <= currentNumConnections (node w).
Proof.
  assert (Hsame : forall A (o : outcome A) (w : World),
            final_world o = w ->
            minConnections (node (final_world o)) = minConnections (node w) /\
            connMtx (node (final_world o)) = connMtx (node w) /\
            Z.min (currentNumConnections (node w)) (minConnections (node w))
              <= currentNumConnections (node (final_world o))
              <= currentNumConnections (node w)).
  { intros A o w ->. repeat split; lia. }
  induction fuel as [| fuel IH]; intros i count w Hk Hmin; cbn zeta.
  - rewrite expire_loop_O.
    destruct (i <? length (available (node w)))%nat;
      apply Hsame; reflexivity.
  - rewrite expire_loop_S.
    destruct (i <? length (available (node w)))%nat;
      [| apply Hsame; reflexivity].
    destruct (currentNumConnections (node w) <=? minConnections (node w))
      eqn:Hle; [apply Hsame; reflexivity |].
    apply Z.leb_gt in Hle.
    destruct (available (node w) !! i) as [[conn |] |];
      try (apply Hsame; reflexivity).
    destruct (idleTimeout (node w) <=? time_Sub now (lastUsed conn)).
    + specialize (IH i (S count) (expire_remove i conn w)).
      cbn [expire_remove log_close upd_node node set_currentNumConnections
           set_available currentNumConnections minConnections connMtx] in IH.
      rewrite (wrap16_pred _ _ Hk Hmin Hle) in IH.
      unfold uint16 in *. cbn zeta in IH.
      destruct IH as (-> & -> & IH); [lia | lia |].
      repeat split; lia.
    + apply IH; assumption.
Qed.

(** Removing at [i] keeps what the queue holds, minus one entry. *)
Lemma swap_remove_Forall {A} (P : A -> Prop) (d : A) (i : nat) (l : list A) :
  Forall P l ->
  Forall P (take (length l - 1) (<[i := default d (l !! (length l - 1)%nat)]> l)).
Proof.
  intros Hl. apply Forall_take.
  destruct (decide (i < length l)%nat) as [Hi | Hi].
  - apply Forall_insert; [exact Hl |].
    destruct (l !! (length l - 1)%nat) as [x |] eqn:Hx; cbn.
    + eapply Forall_lookup_1; eassumption.
    + apply lookup_ge_None in Hx. lia.
  - rewrite list_insert_ge by lia. exact Hl.
Qed.

Lemma swap_remove_length {A} (x : A) (i : nat) (l : list A) :
  (0 < length l)%nat ->
  S (length (take (length l - 1) (<[i := x]> l))) = length l.
Proof. intros Hl. rewrite length_take, length_insert. lia. Qed.

(** Only the pool fields and the log of closes differ. *)
Definition same_but_pool (w w' : World) : Prop :=
  minConnections (node w') = minConnections (node w) /\
  maxConnections (node w') = maxConnections (node w) /\
  idleTimeout (node w') = idleTimeout (node w) /\
  healthCheckBuilder (node w') = healthCheckBuilder (node w) /\
  expireTicker (node w') = expireTicker (node w) /\
  connMtx (node w') = connMtx (node w) /\
  stateMtx (node w') = stateMtx (node w) /\
  nodeState (node w') = nodeState (node w) /\
  clock w' = clock w /\ dials w' = dials w /\ dialLog w' = dialLog w /\
  allocs w' = allocs w /\ expiring w' = expiring w /\
  healthChecks w' = healthChecks w.

Lemma same_but_pool_refl (w : World) : same_but_pool w w.
Proof. unfold same_but_pool. repeat split. Qed.

Lemma same_but_pool_trans (w1 w2 w3 : World) :
  same_but_pool w1 w2 -> same_but_pool w2 w3 -> same_but_pool w1 w3.
Proof.
  unfold same_but_pool. intros H12 H23.
  repeat match goal with H : _ /\ _ |- _ => destruct H end.
  repeat split; congruence.
Qed.

(** With no nil entry in the queue, [length available] rounds finish
    the loop.  Every connection it closes was stale, was in the queue,
    and went while the count was above the minimum; and it stops only
    at the minimum or when no stale connection is left. *)
Definition expire_post (now : Z) (w : World) (cl : list connection)
  (w' : World) : Prop :=
  closedLog w' = closedLog w ++ cl /\
  Forall (stale (idleTimeout (node w)) now) cl /\
  Forall (fun c => Some c ∈ available (node w)) cl /\
  Forall (fun c => c ∈ available (node w)) (available (node w')) /\
  currentNumConnections (node w') =
    currentNumConnections (node w) - Z.of_nat (length cl) /\
  (length (available (node w')) + length cl)%nat =
    length (available (node w)) /\
  (cl <> [] -> minConnections (node w) <= currentNumConnections (node w')) /\
  (cl = [] -> w' = w) /\
  (currentNumConnections (node w') <= minConnections (node w) \/
   Forall (fresh (idleTimeout (node w)) now) (available (node w'))) /\
  same_but_pool w w'.

Lemma expire_post_stop (now : Z) (w : World) :
  currentNumConnections (node w) <= minConnections (node w) \/
  Forall (fresh (idleTimeout (node w)) now) (available (node w)) ->
  expire_post now w [] w.
Proof.
  intros Hend. unfold expire_post.
  rewrite app_nil_r. cbn [length Z.of_nat].
  repeat split; try (exact Hend || constructor || lia || congruence).
  apply Forall_forall. auto.
Qed.

Lemma expire_loop_total (fuel : nat) (now : Z) :
  forall (i count : nat) (w : World),
    Forall is_Some (available (node w)) ->
    Forall (fresh (idleTimeout (node w)) now) (take i (available (node w))) ->
    (length (available (node w)) <= fuel + i)%nat ->
    uint16 (currentNumConnections (node w)) ->
    0 <= minConnections (node w) ->
    exists (cl : list connection) (w' : World),
      expire_loop env fuel now i count w =
        Done (Some (count + length cl)%nat) w' /\
      expire_post now w cl w'.
Proof.
  induction fuel as [| fuel IH]; intros i count w Hsome Hpre Hfuel Hk Hmin.
  - rewrite expire_loop_O.
    replace (i <? length (available (node w)))%nat with false
      by (symmetry; apply Nat.ltb_ge; lia).
    exists [], w. rewrite Nat.add_0_r. split; [reflexivity |].
    apply expire_post_stop. right. rewrite take_ge in Hpre by lia. exact Hpre.
  - rewrite expire_loop_S.
    destruct (i <? length (available (node w)))%nat eqn:Hi.
    2:{ apply Nat.ltb_ge in Hi.
        exists [], w. rewrite Nat.add_0_r. split; [reflexivity |].
        apply expire_post_stop. right.
        rewrite take_ge in Hpre by lia. exact Hpre. }
    apply Nat.ltb_lt in Hi.
    destruct (currentNumConnections (node w) <=? minConnections (node w))
      eqn:Hle.
    { apply Z.leb_le in Hle.
      exists [], w. rewrite Nat.add_0_r. split; [reflexivity |].
      apply expire_post_stop. left. exact Hle. }
    apply Z.leb_gt in Hle.
    destruct (available (node w) !! i) as [[conn |] |] eqn:Hlook.
    3:{ apply lookup_ge_None in Hlook. lia. }
    2:{ exfalso. eapply Forall_lookup_1 in Hsome; [| exact Hlook].
        destruct Hsome as [x Hx]. discriminate. }
    destruct (idleTimeout (node w) <=? time_Sub now (lastUsed conn)) eqn:Hst.
    + apply Z.leb_le in Hst.
      pose proof (wrap16_pred _ _ Hk Hmin Hle) as Hwrap.
      pose proof (swap_remove_length
        (default None (available (node w) !! (length (available (node w)) - 1)%nat))
        i (available (node w)) ltac:(lia)) as Hsl.
      assert (Hkeep : Forall (fun c => c ∈ available (node w))
                (take (length (available (node w)) - 1)
                   (<[i := default None (available (node w)
                             !! (length (available (node w)) - 1)%nat)]>
                      (available (node w))))).
      { apply swap_remove_Forall. apply Forall_forall. auto. }
      destruct (IH i (S count) (expire_remove i conn w))
        as (cl & w' & Hrun & Hlog & Hstale & Hin & Hsub & Hcnt & Hlen
            & Hmn & _ & Hend & Hframe).
      * cbn. apply swap_remove_Forall. exact Hsome.
      * cbn. rewrite take_take, take_insert_ge by lia.
        replace (i `min` (length (available (node w)) - 1))%nat with i by lia.
        exact Hpre.
      * cbn. lia.
      * cbn. rewrite Hwrap. unfold uint16 in *. lia.
      * cbn. exact Hmin.
      * cbn in Hlog, Hstale, Hin, Hsub, Hcnt, Hlen, Hmn, Hend.
        rewrite Hwrap in Hcnt.
        exists (conn :: cl), w'. split.
        { rewrite Hrun. do 2 f_equal. cbn [length]. lia. }
        unfold expire_post. rewrite Hlog, <- app_assoc. cbn [app length].
        split; [reflexivity |].
        split; [constructor; [exact Hst | exact Hstale] |].
        split.
        { constructor.
          - eapply list_elem_of_lookup_2. exact Hlook.
          - eapply Forall_impl; [exact Hin |]. cbn. intros c Hc.
            eapply Forall_forall in Hkeep; [exact Hkeep | exact Hc]. }
        split.
        { eapply Forall_impl; [exact Hsub |]. cbn. intros c Hc.
          eapply Forall_forall in Hkeep; [exact Hkeep | exact Hc]. }
        split; [lia |]. split; [lia |].
        split.
        { intros _. destruct cl as [| c0 cl0].
          - cbn in Hcnt. lia.
          - apply Hmn. discriminate. }
        split; [discriminate |].
        split; [exact Hend |].
        eapply same_but_pool_trans; [| exact Hframe].
        unfold same_but_pool. cbn. repeat split.
    + apply Z.leb_gt in Hst.
      destruct (IH (S i) count w) as (cl & w' & Hrun & Hrest);
        [exact Hsome | | lia | exact Hk | exact Hmin |].
      * rewrite (take_S_r _ _ _ Hlook). apply Forall_app. split; [exact Hpre |].
        constructor; [| constructor].
        intros x Hx. injection Hx as <-. unfold stale. lia.
      * exists cl, w'. split; [exact Hrun | exact Hrest].
Qed.

Lemma expireSweep_eq (w : World) :
  connMtx (node w) = false ->
  expireSweep env w =
    match expire_loop env (length (available (node w))) (clock w) 0 0
            (upd_node (set_connMtx true) w) with
    | Done r w1 => (connMtx_Unlock;;; act_ret r) w1
    | Panic msg w1 => Panic msg w1
    | Blocked w1 => Blocked w1
    end.
Proof.
  intros Hm. unfold expireSweep, act_bind, connMtx_Lock, gets.
  rewrite Hm. reflexivity.
Qed.

(** However a sweep ends, the count has not gone up, and has not gone
    from the minimum or above to below it. *)
Lemma expireSweep_bounds (w : World) :
  uint16 (currentNumConnections (node w)) ->
  0 <= minConnections (node w) ->
  Z.min (currentNumConnections (node w)) (minConnections (node w))
    <= currentNumConnections (node (final_world (expireSweep env w)))
    <= currentNumConnections (node w).
Proof.
  intros Hk Hmin. destruct (connMtx (node w)) eqn:Hm.
  - unfold expireSweep, act_bind, connMtx_Lock. rewrite Hm. cbn. lia.
  - rewrite expireSweep_eq by exact Hm.
    pose proof (expire_loop_bounds (length (available (node w))) (clock w)
                  0 0 (upd_node (set_connMtx true) w) Hk Hmin)
      as (_ & Hlock & Hb).
    cbn [upd_node node set_connMtx currentNumConnections minConnections
         connMtx] in Hlock, Hb.
    destruct (expire_loop env _ _ _ _ _) as [r w1 | msg w1 | w1];
      cbn [final_world] in *; try exact Hb.
    unfold act_bind, connMtx_Unlock, act_ret. rewrite Hlock. cbn. exact Hb.
Qed.

(** A sweep of a queue without nil entries returns, with the lock
    released again. *)
Lemma expireSweep_total (w : World) :
  uint16 (currentNumConnections (node w)) ->
  0 <= minConnections (node w) ->
  connMtx (node w) = false ->
  Forall is_Some (available (node w)) ->
  exists (cl : list connection) (w' : World),
    expireSweep env w = Done (Some (length cl)) w' /\
    expire_post (clock w) w cl w'.
Proof.
  intros Hk Hmin Hm Hsome. rewrite expireSweep_eq by exact Hm.
  destruct (expire_loop_total (length (available (node w))) (clock w)
              0 0 (upd_node (set_connMtx true) w))
    as (cl & w1 & Hrun & Hlog & Hstale & Hin & Hsub & Hcnt & Hlen
        & Hmn & Hnil & Hend & Hframe);
    [exact Hsome | constructor | cbn; lia | exact Hk | exact Hmin |].
  cbn [upd_node node set_connMtx available] in Hrun. rewrite Hrun.
  cbn [upd_node node set_connMtx currentNumConnections minConnections
       available idleTimeout closedLog] in *.
  assert (Hlock : connMtx (node w1) = true) by apply Hframe.
  unfold act_bind, connMtx_Unlock, act_ret. rewrite Hlock. cbn [Nat.add].
  exists cl, (upd_node (set_connMtx false) w1).
  split; [reflexivity |].
  unfold expire_post. cbn.
  split; [exact Hlog |]. split; [exact Hstale |]. split; [exact Hin |].
  split; [exact Hsub |]. split; [exact Hcnt |]. split; [exact Hlen |].
  split; [exact Hmn |]. split.
  { intros Hcl. rewrite (Hnil Hcl). open_world w. reflexivity. }
  split; [exact Hend |].
  unfold same_but_pool in *. cbn in *.
  repeat match goal with H : _ /\ _ |- _ => destruct H end.
  repeat split; congruence.
Qed.

(** C7: a sweep never takes the live count from the minimum or above
    to below it, however it ends, and never raises it.  Run on a queue
    without nil entries it returns; each connection it closed was
    stale and idle and went while the count was strictly above the
    minimum; a count at or below the minimum leaves the node untouched;
    and it stops either at the minimum or with no stale connection
    left, so with every idle connection stale it ends exactly at the
    larger of the minimum and (count - queue length). *)
Theorem expireSweep_never_below_minimum (w : World) :
  uint16 (currentNumConnections (node w)) ->
  0 <= minConnections (node w) ->
  Z.min (currentNumConnections (node w)) (minConnections (node w))
    <= currentNumConnections (node (final_world (expireSweep env w)))
    <= currentNumConnections (node w)
  /\
  (connMtx (node w) = false ->
   Forall is_Some (available (node w)) ->
   exists (cl : list connection) (w' : World),
     expireSweep env w = Done (Some (length cl)) w' /\
     closedLog w' = closedLog w ++ cl /\
     Forall (stale (idleTimeout (node w)) (clock w)) cl /\
     Forall (fun c => Some c ∈ available (node w)) cl /\
     currentNumConnections (node w') =
       currentNumConnections (node w) - Z.of_nat (length cl) /\
     (length (available (node w')) + length cl)%nat =
       length (available (node w)) /\
     (cl <> [] -> minConnections (node w) <= currentNumConnections (node w')) /\
     (minConnections (node w) <= currentNumConnections (node w) ->
      minConnections (node w) <= currentNumConnections (node w')) /\
     (currentNumConnections (node w) <= minConnections (node w) -> w' = w) /\
     (currentNumConnections (node w') <= minConnections (node w) \/
      Forall (fresh (idleTimeout (node w)) (clock w)) (available (node w'))) /\
     (minConnections (node w) <= currentNumConnections (node w) ->
      Forall (fun c => forall conn, c = Some conn ->
                stale (idleTimeout (node w)) (clock w) conn)
        (available (node w)) ->
      currentNumConnections (node w') =
        Z.max (minConnections (node w))
          (currentNumConnections (node w)
           - Z.of_nat (length (available (node w)))))).
Proof.
  intros Hk Hmin. split; [apply expireSweep_bounds; assumption |].
  intros Hm Hsome.
  destruct (expireSweep_total w Hk Hmin Hm Hsome)
    as (cl & w' & Hrun & Hlog & Hstale & Hin & Hsub & Hcnt & Hlen
        & Hmn & Hnil & Hend & _).
  exists cl, w'.
  split; [exact Hrun |]. split; [exact Hlog |]. split; [exact Hstale |].
  split; [exact Hin |]. split; [exact Hcnt |]. split; [exact Hlen |].
  split; [exact Hmn |].
  assert (Hge : minConnections (node w) <= currentNumConnections (node w) ->
                minConnections (node w) <= currentNumConnections (node w')).
  { intros Hge. destruct cl as [| c0 cl0].
    - cbn in Hcnt. lia.
    - apply Hmn. discriminate. }
  split; [exact Hge |]. split.
  { intros Hle. destruct cl as [| c0 cl0].
    - apply Hnil. reflexivity.
    - specialize (Hmn ltac:(discriminate)). cbn [length] in Hcnt. lia. }
  split; [exact Hend |].
  intros Hge' Hall. specialize (Hge Hge').
  destruct Hend as [Hend | Hend]; [lia |].
  destruct (available (node w')) as [| x rest] eqn:Hav1.
  - cbn [length] in Hlen. lia.
  - exfalso. inversion Hend as [| ? ? Hx _]. subst.
    inversion Hsub as [| ? ? Hxin _]. subst.
    eapply Forall_forall in Hall; [| exact Hxin].
    eapply Forall_forall in Hsome; [| exact Hxin].
    destruct Hsome as [conn ->].
    exact (Hx conn eq_refl (Hall conn eq_refl)).
Qed.

End Expire.

Lemma expireSweep_never_below_minimum_witness :
  Z.min 3 1
    <= currentNumConnections
         (node (final_world
            (expireSweep Sample.env_ok
               (set_clock 1006
                  (Sample.running NODE_RUNNING
                     [Some Sample.connA; Some Sample.connB; Some Sample.connX]
                     3)))))
    <= 3.
Proof.
  apply (expireSweep_never_below_minimum Sample.env_ok
           (set_clock 1006
              (Sample.running NODE_RUNNING
                 [Some Sample.connA; Some Sample.connB; Some Sample.connX] 3))).
  - unfold uint16. cbn. lia.
  - cbn. lia.
Defined.

(** ** Health check *)

Section HealthCheck.

Context (env : Env).

(** The probe a run of [healthCheck] started in [w] obtains. *)
Definition probe_of (w : World) : Command :=
  mkCommand (match healthCheckBuilder (node w) with
             | Some _ => BuiltCommand
             | None => PingCommand
             end) (allocs w).

Lemma getHealthCheckCommand_eq (w : World) :
  getHealthCheckCommand w = Done (probe_of w) (bump_allocs w).
Proof.
  unfold getHealthCheckCommand, probe_of, new_Command. run.
  destruct (healthCheckBuilder (node w)); reflexivity.
Qed.

(** What the retry loop has done after [k] attempts with the probe
    [hc]: [k] dials logged, all with [hc], no command produced. *)
Definition probed (hc : Command) (k : nat) (w w' : World) : Prop :=
  dialLog w' = dialLog w ++ replicate k (Some hc) /\
  dials w' = (dials w + k)%nat /\
  allocs w' = allocs w /\
  closedLog w' = closedLog w /\
  connMtx (node w') = false /\
  stateMtx (node w') = mkRW 0 false.

(** How the loop stands when it returns [b] after [k] attempts. *)
Definition loop_result (fuel : nat) (b : bool) (k : nat) (w w' : World)
  : Prop :=
  if b then
    k <> O /\
    nodeState (node w') = NODE_RUNNING /\
    exists c,
      available (node w') =
        available (node w) ++ [Some (set_inFlight false c)] /\
      currentNumConnections (node w') =
        wrap16 (currentNumConnections (node w) + 1)
  else
    k = fuel /\
    nodeState (node w') = NODE_HEALTH_CHECKING /\
    available (node w') = available (node w) /\
    currentNumConnections (node w') = currentNumConnections (node w).

Lemma healthCheck_loop_spec (hc : Command) (fuel : nat) :
  forall w : World,
    quiescent w ->
    nodeState (node w) = NODE_HEALTH_CHECKING ->
    exists (b : bool) (k : nat) (w' : World),
      healthCheck_loop env fuel hc w = Done b w' /\
      probed hc k w w' /\
      (k <= fuel)%nat /\
      loop_result fuel b k w w'.
Proof.
  induction fuel as [| fuel IH]; intros w [Hm Hs] Hst.
  - exists false, O, w. cbn [healthCheck_loop]. unfold act_ret, probed.
    cbn [replicate loop_result]. rewrite app_nil_r, Nat.add_0_r.
    repeat split; try (assumption || lia || congruence).
  - assert (Hfail :
      (forall c, dial env (dials w) (Some hc) <> Connects c) ->
      exists (b : bool) (k : nat) (w' : World),
        healthCheck_loop env fuel hc
          (set_clock (clock w + thirtySeconds) (log_dial (Some hc) w))
          = Done b w' /\
        probed hc k w w' /\ (k <= S fuel)%nat /\
        loop_result (S fuel) b k w w').
    { intros Hno.
      destruct (IH (set_clock (clock w + thirtySeconds) (log_dial (Some hc) w)))
        as (b & k & w' & Hrun & Hp & Hk & Hres);
        [split; cbn; assumption | cbn; exact Hst |].
      exists b, (S k), w'. split; [exact Hrun |].
      destruct Hp as (Hlog & Hd & Hp).
      cbn [set_clock log_dial dialLog dials allocs closedLog] in Hlog, Hd, Hp.
      split.
      { unfold probed. rewrite Hlog, Hd, <- app_assoc. cbn [replicate app].
        split; [reflexivity |]. split; [lia | exact Hp]. }
      split; [lia |].
      unfold loop_result in *. destruct b.
      - destruct Hres as (_ & Hst' & c & Hav & Hcnt).
        split; [discriminate |]. split; [exact Hst' |].
        exists c. split; [exact Hav | exact Hcnt].
      - destruct Hres as (-> & Hrest). split; [reflexivity | exact Hrest]. }
    cbn [healthCheck_loop]. unfold act_bind at 1.
    rewrite createNewConnection_eq, Hm.
    destruct (dial env (dials w) (Some hc)) as [e | c e | c] eqn:Hd.
    + unfold act_bind at 1, time_Sleep, modify.
      apply Hfail. intros c. discriminate.
    + unfold act_bind at 1, time_Sleep, modify.
      apply Hfail. intros c0. discriminate.
    + clear Hfail IH. unfold act_bind.
      rewrite returnConnectionToPool_eq by (intros _; cbn; exact Hm).
      cbn [upd_node node set_currentNumConnections nodeState log_dial].
      rewrite Hst. cbn [state_ltb state_val Z.ltb Z.compare].
      rewrite setState_eq by (cbn; exact Hs).
      eexists true, 1%nat, _. split; [reflexivity |].
      unfold probed, loop_result. cbn.
      split; [repeat split; try (assumption || lia) |].
      split; [lia |]. split; [discriminate |]. split; [reflexivity |].
      exists c. split; reflexivity.
Qed.

(** What the code does with the probe: one run of [healthCheck] calls
    [getHealthCheckCommand] once, before the retry loop, and hands that
    one instance to every creation attempt of the run, however many
    there are; only another run gets another instance. *)
Theorem healthCheck_probe_made_once_per_run (fuel : nat) (w : World) :
  quiescent w ->
  exists (b : bool) (k : nat) (w' : World),
    healthCheck env fuel w = Done b w' /\
    allocs w' = S (allocs w) /\
    (dials w' = dials w + k)%nat /\
    dialLog w' = dialLog w ++ replicate k (Some (probe_of w)) /\
    cmdInst (probe_of w') <> cmdInst (probe_of w) /\
    (k <= fuel)%nat /\
    (if b then nodeState (node w') = NODE_RUNNING
     else k = fuel /\ nodeState (node w') = NODE_HEALTH_CHECKING).
Proof.
  intros [Hm Hs]. unfold healthCheck. unfold act_bind at 1.
  rewrite setState_eq by exact Hs. unfold act_bind at 1.
  rewrite getHealthCheckCommand_eq.
  destruct (healthCheck_loop_spec
              (probe_of (upd_node (set_nodeState NODE_HEALTH_CHECKING) w))
              fuel
              (bump_allocs (upd_node (set_nodeState NODE_HEALTH_CHECKING) w)))
    as (b & k & w' & Hrun & Hp & Hk & Hres);
    [split; cbn; assumption | reflexivity |].
  exists b, k, w'. split; [exact Hrun |].
  destruct Hp as (Hlog & Hd & Hal & _).
  cbn [bump_allocs upd_node dialLog dials allocs] in Hlog, Hd, Hal.
  split; [exact Hal |]. split; [exact Hd |]. split; [exact Hlog |].
  split; [unfold probe_of; cbn [cmdInst]; lia |]. split; [exact Hk |].
  unfold loop_result in Hres. destruct b.
  - destruct Hres as (_ & Hst & _). exact Hst.
  - destruct Hres as (Hkf & Hst & _). split; assumption.
Qed.

End HealthCheck.

(** So the attempts of a run do not each have a probe of their own:
    with two failed connects before the one that succeeds, the run
    makes three attempts with one probe; the factory ran once. *)
Lemma healthCheck_attempts_share_probe :
  ~ (forall (env : Env) (fuel : nat) (w w' : World) (b : bool),
       quiescent w ->
       healthCheck env fuel w = Done b w' ->
       (allocs w' - allocs w = dials w' - dials w)%nat /\
       NoDup (drop (length (dialLog w)) (dialLog w'))).
Proof.
  intros H.
  pose proof (H (Sample.env_after 2) 5%nat
                (Sample.running NODE_RUNNING [] 0)) as H'.
  destruct (healthCheck (Sample.env_after 2) 5
              (Sample.running NODE_RUNNING [] 0))
    as [b w' | msg w' | w'] eqn:Hrun;
    vm_compute in Hrun; try discriminate.
  destruct (H' w' b (conj eq_refl eq_refl) eq_refl) as [Hcount _].
  injection Hrun as _ <-. vm_compute in Hcount. discriminate.
Qed.

Lemma healthCheck_probe_made_once_per_run_witness :
  exists (b : bool) (k : nat) (w' : World),
    healthCheck (Sample.env_after 2) 5 (Sample.running NODE_RUNNING [] 0) =
      Done b w' /\
    allocs w' = 1%nat /\
    dialLog w' = replicate k (Some (mkCommand PingCommand 0)).
Proof.
  destruct (healthCheck_probe_made_once_per_run (Sample.env_after 2) 5
              (Sample.running NODE_RUNNING [] 0) (conj eq_refl eq_refl))
    as (b & k & w' & Hrun & Hal & _ & Hlog & _).
  exists b, k, w'. split; [exact Hrun |]. split; [exact Hal | exact Hlog].
Defined.

(** A node like [Sample.running], with a health-check builder
    configured. *)
Definition running_with_builder : World :=
  mkWorld
    (mkNode 1 2 1000 (Some tt) (Some (mkTicker true)) false [] 0
       (mkRW 0 false) NODE_RUNNING)
    100 0 [] 0 [] true 0.

(** C8 (the code departs from it): on a network where two connects
    fail before one succeeds, one run of [healthCheck] makes three
    creation attempts, so three connection objects, and gives all
    three the same probe instance, the factory having run once before
    the loop: with the default probe constructor, and with a configured
    builder.  The comment on [getHealthCheckCommand] asks for a unique
    command as part of each connection. *)
Theorem healthCheck_reuses_probe_across_attempts :
  (exists w',
     healthCheck (Sample.env_after 2) 5 (Sample.running NODE_RUNNING [] 0) =
       Done true w' /\
     dials w' = 3%nat /\
     dialLog w' =
       [Some (mkCommand PingCommand 0); Some (mkCommand PingCommand 0);
        Some (mkCommand PingCommand 0)] /\
     allocs w' = 1%nat /\
     available (node w') = [Some (mkConn 12 false 0)])
  /\
  (exists w',
     healthCheck (Sample.env_after 2) 5 running_with_builder = Done true w' /\
     dials w' = 3%nat /\
     dialLog w' =
       [Some (mkCommand BuiltCommand 0); Some (mkCommand BuiltCommand 0);
        Some (mkCommand BuiltCommand 0)] /\
     allocs w' = 1%nat /\
     available (node w') = [Some (mkConn 12 false 0)]).
Proof.
  split; eexists; (split; [vm_compute; reflexivity |]); cbn; auto.
Qed.

(** ** The count of live connections *)

Module PoolInvariant.

(** [NodeOptions], without the address and the two timeouts that go to
    [newConnection] only. *)
Record NodeOptions : Type := mkOptions {
  MinConnections : Z;
  MaxConnections : Z;
  IdleTimeout : Z;
  HealthCheckBuilder : option unit
}.

(** [NewNode] once the address is resolved.  The defaults are constants
    declared outside node.go and come in as parameters; a nil
    [options] stands for [defaultNodeOptions]. *)
Definition NewNode (defaultMinConnections defaultMaxConnections
                    defaultIdleTimeout : Z)
  (options : option NodeOptions) : Node :=
  let options :=
    default (mkOptions defaultMinConnections defaultMaxConnections
               defaultIdleTimeout None) options in
  let minC := if MinConnections options =? 0 then defaultMinConnections
              else MinConnections options in
  let maxC := if MaxConnections options =? 0 then defaultMaxConnections
              else MaxConnections options in
  let idle := if IdleTimeout options =? 0 then defaultIdleTimeout
              else IdleTimeout options in
  mkNode minC maxC idle (HealthCheckBuilder options) None false [] 0
    (mkRW 0 false) NODE_CREATED.

(** The node, and the connections its callers hold at the moment
    (checked out), by pointer. *)
Record tracked : Type := mkTracked { world : World; out : list nat }.

Fixpoint take_out (x : nat) (l : list nat) : option (list nat) :=
  match l with
  | [] => None
  | y :: l' =>
      if (x =? y)%nat then Some l'
      else match take_out x l' with
           | Some r => Some (y :: r)
           | None => None
           end
  end.

Inductive op : Type :=
| Acquire                          (* getAvailableConnection *)
| Release (c : connection)         (* returnConnectionToPool, c held *)
| Create (hc : option Command)     (* createNewConnection *)
| Expire                           (* one sweep *)
| Drain                            (* shutdown *)
| Transition (s : state)           (* setState *)
| Tick (now : Z).                  (* time passes *)

(** One operation run to its return; [None] when it does not return or
    releases a connection nobody holds. *)
Definition run_op (env : Env) (o : op) (t : tracked) : option tracked :=
  match o with
  | Acquire =>
      match getAvailableConnection (world t) with
      | Done (Some c) w' => Some (mkTracked w' (connId c :: out t))
      | Done None w' => Some (mkTracked w' (out t))
      | _ => None
      end
  | Release c =>
      match take_out (connId c) (out t) with
      | None => None
      | Some rest =>
          match returnConnectionToPool env c true (world t) with
          | Done _ w' => Some (mkTracked w' rest)
          | _ => None
          end
      end
  | Create hc =>
      match createNewConnection env hc (world t) with
      | Done (Some c, None) w' => Some (mkTracked w' (connId c :: out t))
      | Done _ w' => Some (mkTracked w' (out t))
      | _ => None
      end
  | Expire =>
      match expireSweep env (world t) with
      | Done _ w' => Some (mkTracked w' (out t))
      | _ => None
      end
  | Drain =>
      match shutdown env (world t) with
      | Done _ w' => Some (mkTracked w' (out t))
      | _ => None
      end
  | Transition s =>
      match setState s (world t) with
      | Done _ w' => Some (mkTracked w' (out t))
      | _ => None
      end
  | Tick now => Some (mkTracked (set_clock now (world t)) (out t))
  end.

(** The states reached from a new node by operations that [good]
    admits. *)
Inductive reachable (env : Env) (good : op -> tracked -> tracked -> Prop)
  : tracked -> Prop :=
| reach_new (dmin dmax didle : Z) (options : option NodeOptions) (w : World) :
    uint16 dmin ->
    uint16 (MinConnections (default (mkOptions dmin dmax didle None) options)) ->
    node w = NewNode dmin dmax didle options ->
    reachable env good (mkTracked w [])
| reach_op (o : op) (t t' : tracked) :
    reachable env good t ->
    run_op env o t = Some t' ->
    good o t t' ->
    reachable env good t'.

Definition any_op : op -> tracked -> tracked -> Prop := fun _ _ _ => True.

(** A creation that does not take the 16-bit count past 65535, and a
    drain that ends in SHUTDOWN. *)
Definition counted_op (o : op) (t t' : tracked) : Prop :=
  match o with
  | Create _ => currentNumConnections (node (world t)) < 65535
  | Drain => nodeState (node (world t')) = NODE_SHUTDOWN
  | _ => True
  end.

(** live count = idle queue length + checked out. *)
Definition count_matches (t : tracked) : Prop :=
  currentNumConnections (node (world t)) =
    Z.of_nat (length (available (node (world t))))
    + Z.of_nat (length (out t)).

Definition Inv (t : tracked) : Prop :=
  quiescent (world t) /\
  Forall is_Some (available (node (world t))) /\
  uint16 (currentNumConnections (node (world t))) /\
  0 <= minConnections (node (world t)) /\
  count_matches t.

Lemma take_out_length (x : nat) (l r : list nat) :
  take_out x l = Some r -> length l = S (length r).
Proof.
  revert r. induction l as [| y l IH]; intros r H; cbn in H.
  - discriminate.
  - destruct (x =? y)%nat.
    + injection H as <-. reflexivity.
    + destruct (take_out x l) as [r' |]; [| discriminate].
      injection H as <-. cbn. f_equal. apply IH. reflexivity.
Qed.

Lemma NewNode_fresh (dmin dmax didle : Z) (options : option NodeOptions) :
  uint16 dmin ->
  uint16 (MinConnections (default (mkOptions dmin dmax didle None) options)) ->
  let n := NewNode dmin dmax didle options in
  available n = [] /\ currentNumConnections n = 0 /\
  connMtx n = false /\ stateMtx n = mkRW 0 false /\
  nodeState n = NODE_CREATED /\ 0 <= minConnections n.
Proof.
  intros Hd Ho. cbn. repeat split.
  unfold uint16 in *.
  destruct (MinConnections _ =? 0); lia.
Qed.

Section Preservation.

Context (env : Env).

(** One round of the drain loop on a non-nil entry. *)
Definition drain_slot (i : nat) (c : connection) (w : World) : World :=
  log_close c
    (upd_node (fun n =>
       set_currentNumConnections (wrap16 (currentNumConnections n - 1))
         (set_available (<[i := None]> (available n)) n)) w).

Lemma shutdown_loop_cons (i : nat) (c : connection)
  (l : list (option connection)) (err : option error) (w : World) :
  shutdown_loop env i (Some c :: l) err w =
    shutdown_loop env (S i) l (conn_close env c) (drain_slot i c w).
Proof. reflexivity. Qed.

(** The drain loop over [l]: one decrement per entry, the locks and
    the length of the queue as they were. *)
Lemma shutdown_loop_spec (l : list (option connection)) :
  forall (i : nat) (err : option error) (w : World),
    Forall is_Some l ->
    uint16 (currentNumConnections (node w)) ->
    Z.of_nat (length l) <= currentNumConnections (node w) ->
    exists (err' : option error) (w' : World),
      shutdown_loop env i l err w = Done err' w' /\
      currentNumConnections (node w') =
        currentNumConnections (node w) - Z.of_nat (length l) /\
      length (available (node w')) = length (available (node w)) /\
      connMtx (node w') = connMtx (node w) /\
      stateMtx (node w') = stateMtx (node w) /\
      minConnections (node w') = minConnections (node w).
Proof.
  induction l as [| conn l IH]; intros i err w Hsome Hk Hlen.
  - exists err, w. cbn. repeat split. lia.
  - inversion Hsome as [| ? ? [c ->] Hrest]. subst.
    rewrite shutdown_loop_cons. cbn [length] in Hlen.
    assert (Hwrap : wrap16 (currentNumConnections (node w) - 1) =
                    currentNumConnections (node w) - 1).
    { unfold wrap16, uint16 in *. apply Z.mod_small. lia. }
    destruct (IH (S i) (conn_close env c) (drain_slot i c w))
      as (err' & w' & Hrun & Hrec).
    + exact Hrest.
    + cbn. rewrite Hwrap. unfold uint16 in *. lia.
    + cbn. rewrite Hwrap. lia.
    + rewrite Hrun. exists err', w'. split; [reflexivity |].
      cbn in Hrec. rewrite Hwrap, length_insert in Hrec.
      destruct Hrec as (Hc & Hl & Hm & Hs & Hmin).
      repeat split; try assumption. cbn [length]. lia.
Qed.

Lemma shutdown_to_SHUTDOWN (w w' : World) (r : option error) :
  quiescent w ->
  Forall is_Some (available (node w)) ->
  uint16 (currentNumConnections (node w)) ->
  Z.of_nat (length (available (node w))) <= currentNumConnections (node w) ->
  shutdown env w = Done r w' ->
  nodeState (node w') = NODE_SHUTDOWN ->
  available (node w') = [] /\
  currentNumConnections (node w') = 0 /\
  currentNumConnections (node w) = Z.of_nat (length (available (node w))) /\
  quiescent w' /\
  minConnections (node w') = minConnections (node w).
Proof.
  intros [Hm Hs] Hsome Hk Hlen. unfold shutdown, act_bind at 1, connMtx_Lock.
  rewrite Hm. unfold with_defer, act_bind at 1, gets.
  cbn [upd_node node set_connMtx available].
  destruct (shutdown_loop_spec (available (node w)) 0 None
              (upd_node (set_connMtx true) w) Hsome Hk Hlen)
    as (err & w1 & Hrun & Hc & _ & Hm1 & Hs1 & Hmin1).
  cbn [upd_node node set_connMtx currentNumConnections connMtx stateMtx
       minConnections] in Hc, Hm1, Hs1, Hmin1.
  unfold act_bind at 1. rewrite Hrun.
  destruct err as [e |].
  - unfold act_bind. rewrite setState_eq by (rewrite Hs1; exact Hs).
    unfold act_ret, connMtx_Unlock. cbn. rewrite Hm1.
    intros H. injection H as _ <-. cbn. discriminate.
  - unfold act_bind, gets.
    destruct (currentNumConnections (node w1) =? 0) eqn:Hz.
    + apply Z.eqb_eq in Hz. unfold modify.
      rewrite setState_eq by (cbn; rewrite Hs1; exact Hs).
      unfold act_ret, connMtx_Unlock. cbn. rewrite Hm1.
      intros H _. injection H as _ <-. cbn.
      repeat split; try assumption; try lia.
      cbn. rewrite Hs1. exact Hs.
    + unfold panic, connMtx_Unlock. rewrite Hm1. discriminate.
Qed.

Ltac inv_done :=
  unfold Inv, count_matches, quiescent, uint16 in *;
  cbn [world out node upd_node log_dial log_close set_clock
       set_available set_currentNumConnections set_nodeState set_connMtx
       set_stateMtx minConnections connMtx available currentNumConnections
       stateMtx nodeState pooled dropped length] in *;
  repeat split; try (assumption || lia).

(** Each admitted operation keeps the invariant. *)
Lemma Inv_preserved (o : op) (t t' : tracked) :
  Inv t ->
  run_op env o t = Some t' ->
  counted_op o t t' ->
  Inv t'.
Proof.
  destruct t as [w held].
  intros ([Hm Hs] & Hsome & Hk & Hmin & Hcount) Hrun Hgood.
  unfold count_matches in Hcount. cbn [world out] in *.
  destruct o as [| c | hc | | | s | now]; cbn [run_op world out] in Hrun.
  - (* acquire *)
    rewrite getAvailableConnection_eq in Hrun by exact Hm.
    destruct (available (node w)) as [| x rest] eqn:Hav.
    + injection Hrun as <-. inv_done; rewrite Hav; assumption || lia.
    + inversion Hsome as [| ? ? [c ->] Hrest]. subst.
      injection Hrun as <-. inv_done.
  - (* release *)
    destruct (take_out (connId c) held) as [rest |] eqn:Hheld;
      [| discriminate].
    apply take_out_length in Hheld.
    rewrite returnConnectionToPool_eq in Hrun by (intros _; exact Hm).
    injection Hrun as <-.
    assert (Hwrap : wrap16 (currentNumConnections (node w) - 1) =
                    currentNumConnections (node w) - 1).
    { unfold wrap16, uint16 in *. apply Z.mod_small. lia. }
    destruct (state_ltb (nodeState (node w)) NODE_SHUTTING_DOWN).
    + inv_done.
      * apply Forall_app. split; [exact Hsome |]. repeat constructor. eauto.
      * rewrite length_app. cbn [length]. lia.
    + inv_done; rewrite Hwrap; lia.
  - (* create *)
    cbn in Hgood. rewrite createNewConnection_eq, Hm in Hrun.
    assert (Hwrap : wrap16 (currentNumConnections (node w) + 1) =
                    currentNumConnections (node w) + 1).
    { unfold wrap16, uint16 in *. apply Z.mod_small. lia. }
    destruct (dial env (dials w) hc) as [e | c e | c];
      injection Hrun as <-; inv_done; rewrite Hwrap; lia.
  - (* expire *)
    destruct (expireSweep_total env w Hk Hmin Hm Hsome)
      as (cl & w' & Hsweep
          & (_ & _ & _ & Hsub & Hc & Hlen & _ & _ & _ & Hframe)).
    rewrite Hsweep in Hrun. injection Hrun as <-.
    unfold same_but_pool in Hframe.
    destruct Hframe as (Hmin' & _ & _ & _ & _ & Hm' & Hs' & _).
    inv_done; try congruence.
    eapply Forall_impl; [exact Hsub |]. cbn. intros x Hx.
    eapply Forall_forall in Hsome; [exact Hsome | exact Hx].
  - (* drain *)
    cbn in Hgood.
    destruct (shutdown env w) as [r w' | |] eqn:Hsd; try discriminate.
    injection Hrun as <-. cbn in Hgood.
    destruct (shutdown_to_SHUTDOWN w w' r (conj Hm Hs) Hsome Hk
                ltac:(lia) Hsd Hgood) as (Hav & Hc & Hall & [Hm' Hs'] & Hmin').
    inv_done; try (rewrite Hav; cbn [length]); try congruence; try lia.
    constructor.
  - (* transition *)
    rewrite setState_eq in Hrun by exact Hs. injection Hrun as <-. inv_done.
  - (* tick *)
    injection Hrun as <-. inv_done.
Qed.

Lemma reachable_Inv (t : tracked) :
  reachable env counted_op t -> Inv t.
Proof.
  induction 1 as [dmin dmax didle options w Hd Ho Hn | o t t' _ IH Hrun Hgood].
  - destruct (NewNode_fresh dmin dmax didle options Hd Ho)
      as (Hav & Hc & Hm & Hs & _ & Hmin).
    unfold Inv, count_matches, quiescent, uint16. cbn [world out].
    rewrite Hn, Hav, Hc, Hm, Hs. cbn.
    repeat split; try (constructor || lia || assumption).
  - eapply Inv_preserved; eassumption.
Qed.

(** C2, as amended: in every state reached from a new node by
    acquires, releases of connections that are checked out, creations
    made while the count is below 65535, sweeps, drains that end in
    SHUTDOWN, state changes and the passing of time, the live count
    equals the length of the idle queue plus the number of connections
    checked out, and each of these operations keeps the equality. *)
Theorem live_count_is_idle_plus_checked_out (t : tracked) :
  reachable env counted_op t ->
  count_matches t /\
  (forall (o : op) (t' : tracked),
     run_op env o t = Some t' -> counted_op o t t' -> count_matches t').
Proof.
  intros Hreach. split.
  - apply reachable_Inv. exact Hreach.
  - intros o t' Hrun Hgood.
    apply (Inv_preserved o t t'); [apply reachable_Inv | |]; assumption.
Qed.

End Preservation.

(** A new node with minimum 1 and maximum 2. *)
Definition fresh12 : tracked :=
  mkTracked (mkWorld (NewNode 1 2 1000 None) 0 0 [] 0 [] false 0) [].

Lemma fresh12_reachable (env : Env) (good : op -> tracked -> tracked -> Prop) :
  reachable env good fresh12.
Proof.
  apply (reach_new env good 1 2 1000 None); [| | reflexivity];
    unfold uint16; cbn; lia.
Qed.

(** Run [o] from the state [R] speaks of, whatever [good] would say. *)
Ltac step_any o R R' :=
  lazymatch type of R with
  | reachable ?env _ ?t =>
      let E := fresh "E" in
      let t' := fresh "t" in
      destruct (run_op env o t) as [t' |] eqn:E;
      [| vm_compute in E; discriminate];
      pose proof (reach_op _ _ _ _ _ R E I) as R';
      vm_compute in E; injection E as <-
  end.

(** C2 fails as stated: create, release, then a drain whose close
    fails.  The drain takes the connection off the count and leaves its
    cleared slot in the queue: count 0, queue length 1, nothing checked
    out. *)
Lemma drain_error_breaks_count :
  ~ (forall (env : Env) (t : tracked),
       reachable env any_op t -> count_matches t).
Proof.
  intros H.
  pose proof (fresh12_reachable (Sample.env_close_fails 10) any_op) as R0.
  step_any (Create None) R0 R1.
  step_any (Release (mkConn 10 false 0)) R1 R2.
  step_any Drain R2 R3.
  specialize (H _ _ R3). vm_compute in H. discriminate.
Qed.

(** The count is a [uint16] and [createNewConnection] adds to it
    unguarded: creations alone bring it back to 0 with 65536
    connections held. *)
Lemma creations_reachable (k : nat) :
  exists t : tracked,
    reachable Sample.env_ok any_op t /\
    connMtx (node (world t)) = false /\
    available (node (world t)) = [] /\
    currentNumConnections (node (world t)) = wrap16 (Z.of_nat k) /\
    length (out t) = k.
Proof.
  induction k as [| k (t & Hreach & Hm & Hav & Hc & Hout)].
  - exists fresh12. split; [apply fresh12_reachable |]. repeat split.
  - destruct t as [w held]. cbn [world out] in *.
    eexists. split.
    + eapply (reach_op _ _ (Create None)); [exact Hreach | | exact I].
      cbn [run_op world out]. rewrite createNewConnection_eq, Hm.
      cbn [Sample.env_ok dial]. reflexivity.
    + cbn. rewrite Hc, Hout. repeat split; try assumption.
      unfold wrap16. rewrite Zplus_mod_idemp_l. f_equal. lia.
Qed.

Lemma count_wraps_after_65536_creations :
  exists t : tracked,
    reachable Sample.env_ok any_op t /\
    Z.of_nat (length (out t)) = 65536 /\
    currentNumConnections (node (world t)) = 0 /\
    ~ count_matches t.
Proof.
  destruct (creations_reachable (Z.to_nat 65536))
    as (t & Hreach & _ & Hav & Hc & Hout).
  assert (Hlen : Z.of_nat (length (out t)) = 65536)
    by (rewrite Hout; apply Z2Nat.id; lia).
  assert (Hz : currentNumConnections (node (world t)) = 0)
    by (rewrite Hc, Z2Nat.id by lia; reflexivity).
  exists t. split; [exact Hreach |]. split; [exact Hlen |].
  split; [exact Hz |].
  unfold count_matches. rewrite Hz, Hav, Hlen. cbn [length]. lia.
Qed.

Lemma live_count_is_idle_plus_checked_out_witness :
  count_matches
    (mkTracked
       (upd_node (fun n => set_currentNumConnections 1 n)
          (log_dial None
             (mkWorld (NewNode 1 2 1000 None) 0 0 [] 0 [] false 0)))
       [10%nat]).
Proof.
  apply (live_count_is_idle_plus_checked_out Sample.env_ok).
  apply (reach_op Sample.env_ok counted_op (Create None) fresh12).
  - apply (reach_new Sample.env_ok counted_op 1 2 1000 None);
      [| | reflexivity]; unfold uint16; cbn; lia.
  - reflexivity.
  - cbn. lia.
Defined.

End PoolInvariant.

(** * Further properties of node.go *)

(** ** The name of a state *)

(** [func (v state) String()]: the switch has no case for
    [NODE_ERROR], which keeps the zero value of [rv]. *)
Definition state_String (v : state) : string :=
  match v with
  | NODE_CREATED => "CREATED"
  | NODE_RUNNING => "RUNNING"
  | NODE_HEALTH_CHECKING => "HEALTH_CHECKING"
  | NODE_SHUTTING_DOWN => "SHUTTING_DOWN"
  | NODE_SHUTDOWN => "SHUTDOWN"
  | NODE_ERROR => ""
  end.

(** X1: [String] tells any two states apart, and the one state it
    renders as the empty string is ERROR. *)
Theorem state_String_injective (a b : state) :
  (state_String a = state_String b -> a = b) /\
  (state_String a = ""%string <-> a = NODE_ERROR).
Proof.
  split.
  - destruct a, b; cbn; intros H; try reflexivity; discriminate.
  - split; intros H.
    + destruct a; try reflexivity; discriminate.
    + subst a. reflexivity.
Qed.

(** ** The state check of the exported operations *)

Section IllegalState.

Context (env : Env).

(** X2: called in a state outside its allow-list, each of [Start],
    [Stop] and [Execute] returns the illegal-state error, naming the
    list and the current state, and leaves the node and its
    surroundings untouched; this needs no lock but the state lock.
    [Stop] is refused in RUNNING. *)
Theorem exported_operations_check_state (cmd : Command) (w : World) :
  writer (stateMtx (node w)) = false ->
  let s := nodeState (node w) in
  (s <> NODE_CREATED ->
   Start env w = Done (Some (IllegalState [NODE_CREATED] s)) w) /\
  (s <> NODE_CREATED -> s <> NODE_HEALTH_CHECKING ->
   Stop env w =
     Done (Some (IllegalState [NODE_CREATED; NODE_HEALTH_CHECKING] s)) w) /\
  (s <> NODE_RUNNING -> s <> NODE_HEALTH_CHECKING ->
   Execute env cmd w =
     Done (false,
           Some (IllegalState [NODE_RUNNING; NODE_HEALTH_CHECKING] s)) w).
Proof.
  intros Hw s. subst s. repeat split.
  - intros H1. unfold Start. unfold act_bind at 1.
    rewrite stateCheck_eq by exact Hw.
    destruct (nodeState (node w)); try reflexivity. congruence.
  - intros H1 H2. unfold Stop. unfold act_bind at 1.
    rewrite stateCheck_eq by exact Hw.
    destruct (nodeState (node w)); try reflexivity; congruence.
  - intros H1 H2. unfold Execute. unfold act_bind at 1.
    rewrite stateCheck_eq by exact Hw.
    destruct (nodeState (node w)); try reflexivity; congruence.
Qed.

End IllegalState.

Lemma exported_operations_check_state_witness :
  Stop Sample.env_ok (Sample.running NODE_RUNNING [Some Sample.connA] 1) =
    Done (Some (IllegalState [NODE_CREATED; NODE_HEALTH_CHECKING]
                  NODE_RUNNING))
      (Sample.running NODE_RUNNING [Some Sample.connA] 1).
Proof.
  apply (proj1 (proj2 (exported_operations_check_state Sample.env_ok
                         Sample.ping
                         (Sample.running NODE_RUNNING [Some Sample.connA] 1)
                         eq_refl)));
    discriminate.
Defined.

(** ** When [Start] and [Stop] return *)

Section StartReturns.

Context (env : Env).

(** With a minimum of zero the loop of [Start] does not run. *)
Lemma Start_without_minimum (w : World) :
  quiescent w ->
  nodeState (node w) = NODE_CREATED ->
  minConnections (node w) <= 0 ->
  Start env w =
    Done None
      (upd_node (set_nodeState NODE_RUNNING)
         (set_expiring true
            (upd_node (set_expireTicker (Some (mkTicker true))) w))).
Proof.
  intros [Hm Hs] Hst Hmin. unfold Start. unfold act_bind at 1.
  rewrite stateCheck_eq by (rewrite Hs; reflexivity). rewrite Hst.
  cbn [existsb state_eqb state_val Z.eqb orb].
  destruct (Z.to_nat (minConnections (node w))) as [| k] eqn:Hk; [| lia].
  open_world w. run. rewrite Hk. cbn [Start_loop].
  run. unfold setState. run. reflexivity.
Qed.

(** X3: on a CREATED node with free locks, [Start] returns exactly when
    the minimum is zero or the first creation fails; a creation that
    connects leaves it waiting for [connMtx] for ever.  When it
    returns, it returns nil with the node RUNNING, the ticker and the
    expiration activity started, the locks free, and the idle queue
    and the live count as they were: [Start] puts no connection in the
    pool. *)
Theorem Start_returns_only_without_connection (w : World) :
  quiescent w ->
  nodeState (node w) = NODE_CREATED ->
  ((exists r w', Start env w = Done r w') <->
   (minConnections (node w) <= 0 \/
    forall c, dial env (dials w) None <> Connects c)) /\
  (forall r w',
     Start env w = Done r w' ->
     r = None /\
     nodeState (node w') = NODE_RUNNING /\
     available (node w') = available (node w) /\
     currentNumConnections (node w') = currentNumConnections (node w) /\
     closedLog w' = closedLog w /\
     expireTicker (node w') = Some (mkTicker true) /\
     expiring w' = true /\
     quiescent w').
Proof.
  intros Hq Hst.
  assert (Hcases :
    minConnections (node w) <= 0 \/
    (1 <= minConnections (node w) /\
     forall c, dial env (dials w) None <> Connects c) \/
    (1 <= minConnections (node w) /\
     exists c, dial env (dials w) None = Connects c)).
  { destruct (Z_le_gt_dec (minConnections (node w)) 0) as [H0 | H1];
      [left; exact H0 | right].
    destruct (dial env (dials w) None) as [e | c e | c] eqn:Hd.
    - left. split; [lia | discriminate].
    - left. split; [lia | discriminate].
    - right. split; [lia | exists c; reflexivity]. }
  destruct Hq as [Hm Hs].
  destruct Hcases as [H0 | [[H1 Hno] | [H1 [c Hc]]]].
  - rewrite (Start_without_minimum w (conj Hm Hs) Hst H0). split.
    + split; [intros _; left; exact H0 | intros _; eauto].
    + intros r w' H. injection H as <- <-. unfold quiescent. cbn.
      repeat split; assumption.
  - rewrite (StartStop.Start_first_dial_fails env w (conj Hm Hs) Hst H1 Hno).
    split.
    + split; [intros _; right; exact Hno | intros _; eauto].
    + intros r w' H. injection H as <- <-. unfold quiescent. cbn.
      repeat split; assumption.
  - rewrite (StartStop.Start_blocks_on_first_connection env c w
               (conj Hm Hs) Hst H1 Hc).
    split.
    + split.
      * intros (r & w' & H). discriminate.
      * intros [H0 | Hno]; [lia | exfalso; exact (Hno c Hc)].
    + intros r w' H. discriminate.
Qed.

(** X4: [Stop] sends on the unbuffered [stop] channel before anything
    else: on a node whose expiration activity is not running (a node
    never started, say) a [Stop] that passes its state check waits for
    ever and changes nothing. *)
Theorem Stop_waits_without_expiration_activity (w : World) :
  writer (stateMtx (node w)) = false ->
  nodeState (node w) = NODE_CREATED \/
  nodeState (node w) = NODE_HEALTH_CHECKING ->
  expiring w = false ->
  Stop env w = Blocked w.
Proof.
  intros Hw Hst Hex. unfold Stop. unfold act_bind at 1.
  rewrite stateCheck_eq by exact Hw.
  assert (Hsend : stop_send w = Blocked w)
    by (unfold stop_send; rewrite Hex; reflexivity).
  replace (existsb (state_eqb (nodeState (node w)))
             [NODE_CREATED; NODE_HEALTH_CHECKING]) with true
    by (destruct Hst as [-> | ->]; reflexivity).
  unfold act_bind at 1. rewrite Hsend. reflexivity.
Qed.

End StartReturns.

Lemma Start_returns_only_without_connection_witness :
  (exists r w', Start Sample.env_down Sample.world0 = Done r w') <->
  (minConnections (node Sample.world0) <= 0 \/
   forall c, dial Sample.env_down (dials Sample.world0) None <> Connects c).
Proof.
  exact (proj1 (Start_returns_only_without_connection Sample.env_down
                  Sample.world0 (conj eq_refl eq_refl) eq_refl)).
Defined.

Lemma Stop_waits_without_expiration_activity_witness :
  Stop Sample.env_ok Sample.world0 = Blocked Sample.world0.
Proof.
  apply Stop_waits_without_expiration_activity;
    [reflexivity | left; reflexivity | reflexivity].
Defined.

(** ** The drain *)

Section Drain.

Context (env : Env).

(** The error the drain loop ends with: the result of the last close,
    or [err] when there was nothing to close. *)
Definition last_close (err : option error) (cs : list connection)
  : option error :=
  match last cs with
  | None => err
  | Some c => conn_close env c
  end.

Lemma last_close_cons (err : option error) (c : connection)
  (cs : list connection) :
  last_close err (c :: cs) = last_close (conn_close env c) cs.
Proof.
  unfold last_close. rewrite last_cons. destruct (last cs); reflexivity.
Qed.

(** The loop over the slots [i, i + length cs): each is cleared, each
    connection closed in queue order, the count lowered once per
    slot. *)
Lemma shutdown_loop_full (cs : list connection) :
  forall (pre post : list (option connection)) (err : option error)
         (w : World),
    available (node w) = pre ++ map Some cs ++ post ->
    uint16 (currentNumConnections (node w)) ->
    Z.of_nat (length cs) <= currentNumConnections (node w) ->
    exists w',
      shutdown_loop env (length pre) (map Some cs) err w =
        Done (last_close err cs) w' /\
      closedLog w' = closedLog w ++ cs /\
      currentNumConnections (node w') =
        currentNumConnections (node w) - Z.of_nat (length cs) /\
      available (node w') = pre ++ replicate (length cs) None ++ post /\
      same_but_pool w w'.
Proof.
  induction cs as [| c cs IH]; intros pre post err w Hav Hk Hlen.
  - exists w. cbn. rewrite app_nil_r, Z.sub_0_r.
    repeat split; try assumption.
  - cbn [map length] in *. rewrite PoolInvariant.shutdown_loop_cons.
    assert (Hwrap : wrap16 (currentNumConnections (node w) - 1) =
                    currentNumConnections (node w) - 1).
    { unfold wrap16, uint16 in *. apply Z.mod_small. lia. }
    destruct (IH (pre ++ [None]) post (conn_close env c)
                (PoolInvariant.drain_slot (length pre) c w))
      as (w' & Hrun & Hlog & Hc & Hav' & Hframe).
    + cbn. rewrite Hav.
      replace (length pre) with (length pre + 0)%nat at 1 by lia.
      rewrite insert_app_r. cbn. rewrite <- app_assoc. reflexivity.
    + cbn. rewrite Hwrap. unfold uint16 in *. lia.
    + cbn. rewrite Hwrap. lia.
    + rewrite length_app in Hrun. cbn [length] in Hrun.
      replace (length pre + 1)%nat with (S (length pre)) in Hrun by lia.
      exists w'. rewrite last_close_cons. split; [exact Hrun |].
      cbn in Hlog, Hc. rewrite Hwrap in Hc.
      split; [rewrite Hlog, <- app_assoc; reflexivity |].
      split; [lia |].
      split; [rewrite Hav', <- app_assoc; reflexivity |].
      eapply same_but_pool_trans; [| exact Hframe].
      unfold same_but_pool. cbn. repeat split.
Qed.

(** What [shutdown] does to a queue of non-nil entries. *)
Lemma shutdown_spec (cs : list connection) (w : World) :
  quiescent w ->
  available (node w) = map Some cs ->
  uint16 (currentNumConnections (node w)) ->
  Z.of_nat (length cs) <= currentNumConnections (node w) ->
  exists w',
    closedLog w' = closedLog w ++ cs /\
    currentNumConnections (node w') =
      currentNumConnections (node w) - Z.of_nat (length cs) /\
    quiescent w' /\
    expiring w' = expiring w /\
    expireTicker (node w') = expireTicker (node w) /\
    match last_close None cs with
    | Some e =>
        shutdown env w = Done (Some e) w' /\
        nodeState (node w') = NODE_ERROR /\
        available (node w') = replicate (length cs) None
    | None =>
        if currentNumConnections (node w) =? Z.of_nat (length cs) then
          shutdown env w = Done None w' /\
          nodeState (node w') = NODE_SHUTDOWN /\
          available (node w') = []
        else
          shutdown env w = Panic "Connections still in use." w' /\
          nodeState (node w') = nodeState (node w) /\
          available (node w') = replicate (length cs) None
    end.
Proof.
  intros [Hm Hs] Hav Hk Hlen.
  destruct (shutdown_loop_full cs [] [] None (upd_node (set_connMtx true) w))
    as (w1 & Hrun & Hlog & Hc & Hav1 & Hframe);
    [cbn; rewrite app_nil_r; exact Hav | exact Hk | exact Hlen |].
  cbn [length app upd_node node set_connMtx closedLog
       currentNumConnections] in *.
  rewrite app_nil_r in Hav1.
  unfold same_but_pool in Hframe.
  cbn [upd_node node set_connMtx minConnections maxConnections idleTimeout
       healthCheckBuilder expireTicker connMtx stateMtx nodeState clock
       dials dialLog allocs expiring healthChecks] in Hframe.
  destruct Hframe as (_ & _ & _ & _ & Htk & Hm1 & Hs1 & Hst1 & _ & _ & _
                      & _ & Hex & _).
  assert (Heq : shutdown env w =
            match last_close None cs with
            | Some e =>
                Done (Some e)
                  (upd_node (set_connMtx false)
                     (upd_node (set_nodeState NODE_ERROR) w1))
            | None =>
                if currentNumConnections (node w) =? Z.of_nat (length cs)
                then Done None
                       (upd_node (set_connMtx false)
                          (upd_node (set_nodeState NODE_SHUTDOWN)
                             (upd_node (set_available []) w1)))
                else Panic "Connections still in use."
                       (upd_node (set_connMtx false) w1)
            end).
  { unfold shutdown, act_bind at 1, connMtx_Lock. rewrite Hm.
    unfold with_defer, act_bind at 1, gets.
    cbn [upd_node node set_connMtx available]. rewrite Hav.
    unfold act_bind at 1. rewrite Hrun.
    destruct (last_close None cs) as [e |]; cbv beta iota.
    - unfold act_bind. rewrite setState_eq by (rewrite Hs1; exact Hs).
      unfold act_ret, connMtx_Unlock. cbn. rewrite Hm1. reflexivity.
    - unfold act_bind at 1, gets. rewrite Hc.
      replace (currentNumConnections (node w) - Z.of_nat (length cs) =? 0)
        with (currentNumConnections (node w) =? Z.of_nat (length cs))
        by (destruct (Z.eqb_spec (currentNumConnections (node w))
                        (Z.of_nat (length cs)));
            symmetry; [apply Z.eqb_eq | apply Z.eqb_neq]; lia).
      destruct (currentNumConnections (node w) =? Z.of_nat (length cs)).
      + unfold act_bind, modify. cbv beta iota.
        rewrite setState_eq by (cbn; rewrite Hs1; exact Hs).
        unfold act_ret, connMtx_Unlock. cbn. rewrite Hm1. reflexivity.
      + unfold panic, connMtx_Unlock. rewrite Hm1. reflexivity. }
  rewrite Heq. clear Heq Hrun.
  destruct (last_close None cs) as [e |];
    [| destruct (currentNumConnections (node w) =? Z.of_nat (length cs))];
    eexists; unfold quiescent;
    (split; [| split; [| split; [| split; [| split;
       [| split; [reflexivity |]]]]]]);
    cbn; try split; try assumption; try congruence.
Qed.

(** X5: [shutdown] on a queue of live connections closes every one of
    them, in queue order, and lowers the count by their number,
    however it ends.  Its error is the result of the last close alone:
    if that failed the node is in ERROR and the cleared slots stay in
    the queue; else, with no connection checked out, the queue is
    emptied and the node is in SHUTDOWN; else it panics with the state
    unchanged. *)
Theorem shutdown_closes_every_idle_connection
  (cs : list connection) (w : World) :
  quiescent w ->
  available (node w) = map Some cs ->
  uint16 (currentNumConnections (node w)) ->
  Z.of_nat (length cs) <= currentNumConnections (node w) ->
  exists w',
    closedLog w' = closedLog w ++ cs /\
    currentNumConnections (node w') =
      currentNumConnections (node w) - Z.of_nat (length cs) /\
    quiescent w' /\
    match last cs with
    | Some c =>
        match conn_close env c with
        | Some e =>
            shutdown env w = Done (Some e) w' /\
            nodeState (node w') = NODE_ERROR /\
            available (node w') = replicate (length cs) None
        | None =>
            if currentNumConnections (node w) =? Z.of_nat (length cs) then
              shutdown env w = Done None w' /\
              nodeState (node w') = NODE_SHUTDOWN /\
              available (node w') = []
            else
              shutdown env w = Panic "Connections still in use." w' /\
              nodeState (node w') = nodeState (node w)
        end
    | None =>
        if currentNumConnections (node w) =? 0 then
          shutdown env w = Done None w' /\
          nodeState (node w') = NODE_SHUTDOWN /\
          available (node w') = []
        else
          shutdown env w = Panic "Connections still in use." w' /\
          nodeState (node w') = nodeState (node w)
    end.
Proof.
  intros Hq Hav Hk Hlen.
  destruct (shutdown_spec cs w Hq Hav Hk Hlen)
    as (w' & Hlog & Hc & Hq' & _ & _ & Hout).
  exists w'. split; [exact Hlog |]. split; [exact Hc |].
  split; [exact Hq' |].
  unfold last_close in Hout.
  destruct (last cs) as [c |] eqn:Hl.
  - destruct (conn_close env c); [exact Hout |].
    destruct (currentNumConnections (node w) =? Z.of_nat (length cs));
      [exact Hout | split; apply Hout].
  - apply last_None in Hl. subst cs.
    change (Z.of_nat (length (@nil connection))) with 0 in Hout.
    destruct (currentNumConnections (node w) =? 0);
      [exact Hout | split; apply Hout].
Qed.

End Drain.

Lemma shutdown_closes_every_idle_connection_witness :
  exists w',
    shutdown (Sample.env_close_fails 1)
      (Sample.running NODE_SHUTTING_DOWN
         [Some Sample.connA; Some Sample.connB] 2) = Done None w' /\
    closedLog w' = [Sample.connA; Sample.connB] /\
    nodeState (node w') = NODE_SHUTDOWN.
Proof.
  destruct (shutdown_closes_every_idle_connection (Sample.env_close_fails 1)
              [Sample.connA; Sample.connB]
              (Sample.running NODE_SHUTTING_DOWN
                 [Some Sample.connA; Some Sample.connB] 2))
    as (w' & Hlog & _ & _ & Hrun & Hst & _);
    [split; reflexivity | reflexivity | unfold uint16; cbn; lia | cbn; lia |].
  exists w'. split; [exact Hrun |]. split; [exact Hlog | exact Hst].
Defined.

Section StopReturns.

Context (env : Env).

(** [Stop] up to the drain, when the expiration activity is there to
    take the signal and the ticker exists. *)
Lemma Stop_eq (w : World) (t : Ticker) :
  quiescent w ->
  nodeState (node w) = NODE_CREATED \/
  nodeState (node w) = NODE_HEALTH_CHECKING ->
  expiring w = true ->
  expireTicker (node w) = Some t ->
  Stop env w =
    (_ <- shutdown env;; act_ret None)
      (upd_node (set_nodeState NODE_SHUTTING_DOWN)
         (upd_node (set_expireTicker (Some (mkTicker false)))
            (set_expiring false w))).
Proof.
  intros [Hm Hs] Hst Hex Htk. unfold Stop. unfold act_bind at 1.
  rewrite stateCheck_eq by (rewrite Hs; reflexivity).
  replace (existsb (state_eqb (nodeState (node w)))
             [NODE_CREATED; NODE_HEALTH_CHECKING]) with true
    by (destruct Hst as [-> | ->]; reflexivity).
  unfold act_bind at 1, stop_send. rewrite Hex.
  unfold act_bind at 1, expireTicker_Stop.
  cbn [set_expiring node]. rewrite Htk.
  unfold act_bind at 1. rewrite setState_eq by (cbn; exact Hs).
  reflexivity.
Qed.

(** X6: a [Stop] that passes its check on a started node with a queue
    of live connections signals the expiration activity, stops the
    ticker, and closes every idle connection in queue order.  It never
    hands a close error to its caller: when the last close fails it
    returns nil with the node in ERROR; when the last close succeeds
    and nothing is checked out it returns nil with the node in SHUTDOWN
    and the queue empty; with connections checked out it panics in
    SHUTTING_DOWN. *)
Theorem Stop_drains_and_returns_nil
  (cs : list connection) (t : Ticker) (w : World) :
  quiescent w ->
  nodeState (node w) = NODE_CREATED \/
  nodeState (node w) = NODE_HEALTH_CHECKING ->
  expiring w = true ->
  expireTicker (node w) = Some t ->
  available (node w) = map Some cs ->
  uint16 (currentNumConnections (node w)) ->
  Z.of_nat (length cs) <= currentNumConnections (node w) ->
  exists w',
    closedLog w' = closedLog w ++ cs /\
    currentNumConnections (node w') =
      currentNumConnections (node w) - Z.of_nat (length cs) /\
    expiring w' = false /\
    expireTicker (node w') = Some (mkTicker false) /\
    quiescent w' /\
    match last_close env None cs with
    | Some e =>
        Stop env w = Done None w' /\
        nodeState (node w') = NODE_ERROR
    | None =>
        if currentNumConnections (node w) =? Z.of_nat (length cs) then
          Stop env w = Done None w' /\
          nodeState (node w') = NODE_SHUTDOWN /\
          available (node w') = []
        else
          Stop env w = Panic "Connections still in use." w' /\
          nodeState (node w') = NODE_SHUTTING_DOWN
    end.
Proof.
  intros Hq Hst Hex Htk Hav Hk Hlen.
  rewrite (Stop_eq w t Hq Hst Hex Htk).
  destruct Hq as [Hm Hs].
  destruct (shutdown_spec env cs
              (upd_node (set_nodeState NODE_SHUTTING_DOWN)
                 (upd_node (set_expireTicker (Some (mkTicker false)))
                    (set_expiring false w))))
    as (w' & Hlog & Hc & Hq' & Hex' & Htk' & Hout);
    [split; cbn; assumption | cbn; exact Hav | cbn; exact Hk
    | cbn; exact Hlen |].
  cbn [upd_node set_nodeState set_expireTicker set_expiring node closedLog
       currentNumConnections expiring expireTicker nodeState] in *.
  exists w'. split; [exact Hlog |]. split; [exact Hc |].
  split; [exact Hex' |]. split; [exact Htk' |]. split; [exact Hq' |].
  unfold act_bind.
  destruct (last_close env None cs) as [e |].
  - destruct Hout as (-> & Hst' & _). split; [reflexivity | exact Hst'].
  - destruct (currentNumConnections (node w) =? Z.of_nat (length cs)).
    + destruct Hout as (-> & Hst' & Hav'). repeat split; assumption.
    + destruct Hout as (-> & Hst' & _). split; [reflexivity | exact Hst'].
Qed.

Lemma setState_Done (s : state) (w w' : World) (u : unit) :
  setState s w = Done u w' ->
  w' = upd_node (set_nodeState s) w /\ stateMtx (node w) = mkRW 0 false.
Proof.
  unfold setState, act_bind, stateMtx_Lock, with_defer, modify,
    stateMtx_Unlock.
  destruct (stateMtx (node w)) as [r wr] eqn:Hs. cbn.
  destruct wr; [discriminate |]. destruct r; [| discriminate].
  cbn. intros H. injection H as <-. split; [| reflexivity].
  open_world w. reflexivity.
Qed.

(** A branch whose outcome is not [Done], whatever the deferred unlock
    does. *)
Ltac dead_end :=
  cbv beta iota;
  repeat match goal with
         | |- context [match connMtx_Unlock ?x with _ => _ end] =>
             destruct (connMtx_Unlock x)
         end;
  discriminate.

(** A [shutdown] that returns has set ERROR or SHUTDOWN. *)
Lemma shutdown_Done_state (w w' : World) (r : option error) :
  shutdown env w = Done r w' ->
  (nodeState (node w') = NODE_ERROR \/ nodeState (node w') = NODE_SHUTDOWN)
  /\ quiescent w'.
Proof.
  unfold shutdown, act_bind at 1.
  destruct (connMtx_Lock w) as [[] w1 | |]; [| discriminate ..].
  unfold with_defer, act_bind at 1, gets, act_bind at 1.
  destruct (shutdown_loop env 0 (available (node w1)) None w1)
    as [err w2 | msg w2 | w2].
  - assert (Hunlock : forall (x : option error) (w3 : World),
              match connMtx_Unlock w3 with
              | Done _ w'' => Done x w''
              | Panic msg w'' => Panic msg w''
              | Blocked w'' => Blocked w''
              end = Done r w' ->
              nodeState (node w') = nodeState (node w3) /\
              stateMtx (node w') = stateMtx (node w3) /\
              connMtx (node w') = false).
    { intros x w3. unfold connMtx_Unlock.
      destruct (connMtx (node w3)); [| discriminate].
      intros H. injection H as _ <-. repeat split. }
    destruct err as [e |].
    + unfold act_bind.
      destruct (setState NODE_ERROR w2) as [u w3 | |] eqn:Hset;
        [| dead_end ..].
      apply setState_Done in Hset. destruct Hset as [-> Hs2].
      unfold act_ret. intros H. apply Hunlock in H. cbn in H.
      destruct H as (-> & Hs & Hm). unfold quiescent.
      rewrite Hs, Hs2, Hm. split; [left |]; split; reflexivity.
    + unfold act_bind at 1.
      destruct (currentNumConnections (node w2) =? 0).
      * unfold act_bind, modify.
        destruct (setState NODE_SHUTDOWN _) as [u w3 | |] eqn:Hset;
          [| dead_end ..].
        apply setState_Done in Hset. destruct Hset as [-> Hs2].
        unfold act_ret. intros H. apply Hunlock in H. cbn in H, Hs2.
        destruct H as (-> & Hs & Hm). unfold quiescent.
        rewrite Hs, Hs2, Hm. split; [right |]; split; reflexivity.
      * unfold panic. dead_end.
  - dead_end.
  - discriminate.
Qed.

End StopReturns.

Lemma Stop_drains_and_returns_nil_witness :
  exists w',
    Stop Sample.env_down
      (Sample.running NODE_HEALTH_CHECKING [Some Sample.connA] 1) =
      Done None w' /\
    nodeState (node w') = NODE_ERROR /\
    closedLog w' = [Sample.connA].
Proof.
  destruct (Stop_drains_and_returns_nil Sample.env_down [Sample.connA]
              (mkTicker true)
              (Sample.running NODE_HEALTH_CHECKING [Some Sample.connA] 1))
    as (w' & Hlog & _ & _ & _ & _ & Hrun & Hst);
    [split; reflexivity | right; reflexivity | reflexivity | reflexivity
    | reflexivity | unfold uint16; cbn; lia | cbn; lia |].
  exists w'. split; [exact Hrun |]. split; [exact Hst | exact Hlog].
Defined.


(** ** Dispatch, path by path *)

Section DispatchPaths.

Context (env : Env).

Local Arguments Execute_run : simpl never.

(** What [Execute] reports for a command run on [c], and [c] as it
    goes back to the queue. *)
Definition exec_outcome (cmd : Command) (c : connection)
  : bool * option error :=
  match exec_err (conn_execute env c cmd) with
  | None => (true, None)
  | Some e => (false, Some e)
  end.

Definition used (cmd : Command) (c : connection) : connection :=
  mkConn (connId c) false (exec_lastUsed (conn_execute env c cmd)).

(** The state is not RUNNING: the state check decides. *)
Lemma Execute_not_running_eq (cmd : Command) (w : World) :
  writer (stateMtx (node w)) = false ->
  nodeState (node w) <> NODE_RUNNING ->
  Execute env cmd w =
    Done (false,
          if state_eqb (nodeState (node w)) NODE_HEALTH_CHECKING then None
          else Some (IllegalState [NODE_RUNNING; NODE_HEALTH_CHECKING]
                       (nodeState (node w)))) w.
Proof.
  intros Hw Hst. unfold Execute. unfold act_bind at 1.
  rewrite stateCheck_eq by exact Hw.
  destruct (nodeState (node w)) eqn:Hs; try congruence; try reflexivity.
  open_world w. destruct stateMtx0 as [r wr]. cbn in Hw. subst wr.
  run. reflexivity.
Qed.

(** RUNNING with a connection at the front of the queue. *)
Lemma Execute_pool_eq (cmd : Command) (c : connection)
  (rest : list (option connection)) (w : World) :
  connMtx (node w) = false ->
  writer (stateMtx (node w)) = false ->
  nodeState (node w) = NODE_RUNNING ->
  available (node w) = Some c :: rest ->
  Execute env cmd w =
    Done (exec_outcome cmd c)
      (upd_node (set_available (rest ++ [Some (used cmd c)])) w).
Proof.
  intros Hm Hw Hs Hav. unfold Execute. unfold act_bind at 1.
  rewrite stateCheck_eq by exact Hw. rewrite Hs.
  cbn [existsb state_eqb state_val Z.eqb orb].
  open_world w. destruct stateMtx0 as [r wr]. cbn in Hw. subst wr.
  run. unfold getAvailableConnection. run.
  rewrite Execute_run_eq by reflexivity. unfold exec_outcome, used.
  destruct (exec_err (conn_execute env c cmd)); reflexivity.
Qed.

(** RUNNING with nothing usable at the front: the queue is empty or
    starts with a nil slot, which the acquire drops. *)
Lemma Execute_create_eq (cmd : Command) (w : World) :
  connMtx (node w) = false ->
  writer (stateMtx (node w)) = false ->
  nodeState (node w) = NODE_RUNNING ->
  head (available (node w)) = None \/ head (available (node w)) = Some None ->
  let w0 := upd_node (set_available (tail (available (node w)))) w in
  if currentNumConnections (node w) <? maxConnections (node w) then
    match dial env (dials w) None with
    | NewConnectionFails e =>
        Execute env cmd w =
          Done (false, Some e) (bump_healthChecks (log_dial None w0))
    | ConnectFails c e =>
        Execute env cmd w =
          Done (false, Some e) (bump_healthChecks (log_dial None w0))
    | Connects c => exists w', Execute env cmd w = Blocked w'
    end
  else Execute env cmd w = Done (false, None) w0.
Proof.
  intros Hm Hw Hs Hhd. unfold Execute. unfold act_bind at 1.
  rewrite stateCheck_eq by exact Hw. rewrite Hs.
  cbn [existsb state_eqb state_val Z.eqb orb].
  open_world w. destruct stateMtx0 as [r wr]. cbn in Hw. subst wr.
  destruct available0 as [| [c0 |] rest]; cbn in Hhd;
    try (destruct Hhd; discriminate);
    run; unfold getAvailableConnection; run;
    destruct (currentNumConnections0 <? maxConnections0); try reflexivity;
    unfold createNewConnection; run;
    destruct (dial env dials0 None); run;
    try reflexivity; eexists; reflexivity.
Qed.

(** [k] calls of [Execute] in a row, with what each returned. *)
Fixpoint Execute_n (cmd : Command) (k : nat)
  : act (list (bool * option error)) :=
  match k with
  | O => act_ret []
  | S k' =>
      r <- Execute env cmd;;
      rs <- Execute_n cmd k';;
      act_ret (r :: rs)
  end.

Lemma set_available_same (w : World) :
  upd_node (set_available (available (node w))) w = w.
Proof. open_world w. reflexivity. Qed.

Lemma set_available_twice (l1 l2 : list (option connection)) (w : World) :
  upd_node (set_available l2) (upd_node (set_available l1) w) =
    upd_node (set_available l2) w.
Proof. reflexivity. Qed.

Lemma Execute_n_spec (cmd : Command) (k : nat) :
  forall (cs : list connection) (tl : list (option connection)) (w : World),
    connMtx (node w) = false ->
    writer (stateMtx (node w)) = false ->
    nodeState (node w) = NODE_RUNNING ->
    available (node w) = map Some cs ++ tl ->
    (k <= length cs)%nat ->
    Execute_n cmd k w =
      Done (map (exec_outcome cmd) (take k cs))
        (upd_node
           (set_available
              (map Some (drop k cs) ++ tl
               ++ map (fun c => Some (used cmd c)) (take k cs)))
           w).
Proof.
  induction k as [| k IH]; intros cs tl w Hm Hw Hs Hav Hk.
  - cbn [Execute_n]. rewrite take_0, drop_0. cbn [map].
    rewrite app_nil_r, <- Hav, set_available_same. reflexivity.
  - destruct cs as [| c cs]; [cbn in Hk; lia |].
    cbn [Execute_n]. unfold act_bind at 1.
    rewrite (Execute_pool_eq cmd c (map Some cs ++ tl) w Hm Hw Hs Hav).
    unfold act_bind at 1.
    rewrite (IH cs (tl ++ [Some (used cmd c)]));
      [| assumption | assumption | assumption
       | cbn; rewrite app_assoc; reflexivity | cbn in Hk; lia].
    rewrite set_available_twice. unfold act_ret. cbn [take drop map].
    rewrite <- (app_assoc tl). reflexivity.
Qed.

End DispatchPaths.

Section DispatchFacts.

Context (env : Env).

(** X10: on a RUNNING node with an empty idle queue and the count below
    the maximum, a creation that fails makes [Execute] return "not
    executed" with the creation error, after spawning one health
    check; the pool, the count and the state are unchanged, and the
    attempt was made without a probe. *)
Theorem Execute_failed_creation_spawns_health_check
  (cmd : Command) (e : error) (w : World) :
  connMtx (node w) = false ->
  writer (stateMtx (node w)) = false ->
  nodeState (node w) = NODE_RUNNING ->
  available (node w) = [] ->
  currentNumConnections (node w) < maxConnections (node w) ->
  dial env (dials w) None = NewConnectionFails e \/
  (exists c, dial env (dials w) None = ConnectFails c e) ->
  Execute env cmd w =
    Done (false, Some e)
      (mkWorld (node w) (clock w) (S (dials w)) (dialLog w ++ [None])
         (allocs w) (closedLog w) (expiring w) (S (healthChecks w))).
Proof.
  intros Hm Hw Hs Hav Hlt Hd.
  pose proof (Execute_create_eq env cmd w Hm Hw Hs) as Hcreate.
  rewrite Hav in Hcreate. cbn [head tail] in Hcreate.
  specialize (Hcreate ltac:(auto)). cbn zeta in Hcreate.
  apply Z.ltb_lt in Hlt. rewrite Hlt in Hcreate.
  rewrite <- Hav, set_available_same in Hcreate.
  destruct Hd as [Hd | [c Hd]]; rewrite Hd in Hcreate;
    rewrite Hcreate; reflexivity.
Qed.

End DispatchFacts.

Lemma Execute_failed_creation_spawns_health_check_witness :
  Execute Sample.env_down Sample.ping (Sample.running NODE_RUNNING [] 1) =
    Done (false, Some (ConnError 7))
      (mkWorld (node (Sample.running NODE_RUNNING [] 1)) 100 1 [None] 0 []
         true 1).
Proof.
  apply (Execute_failed_creation_spawns_health_check Sample.env_down
           Sample.ping (ConnError 7) (Sample.running NODE_RUNNING [] 1));
    try reflexivity.
  left. reflexivity.
Defined.

(** ** The health check, attempt by attempt *)

Section HealthCheckRuns.

Context (env : Env).

(** After [N] failed attempts and a connection: one more live
    connection, at the back of the queue, and the node RUNNING. *)
Definition recovered (N : nat) (c : connection) (w w' : World) : Prop :=
  nodeState (node w') = NODE_RUNNING /\
  available (node w') = available (node w) ++ [Some (set_inFlight false c)] /\
  currentNumConnections (node w') =
    wrap16 (currentNumConnections (node w) + 1) /\
  dials w' = (dials w + S N)%nat /\
  clock w' = clock w + Z.of_nat N * thirtySeconds /\
  closedLog w' = closedLog w /\
  allocs w' = allocs w /\
  quiescent w'.

Lemma healthCheck_loop_recovers (hc : Command) (c : connection) (N : nat) :
  forall (fuel : nat) (w : World),
    quiescent w ->
    nodeState (node w) = NODE_HEALTH_CHECKING ->
    (forall j, (j < N)%nat ->
       forall c', dial env (dials w + j) (Some hc) <> Connects c') ->
    dial env (dials w + N) (Some hc) = Connects c ->
    (N < fuel)%nat ->
    exists w',
      healthCheck_loop env fuel hc w = Done true w' /\ recovered N c w w'.
Proof.
  induction N as [| N IH]; intros fuel w [Hm Hs] Hst Hno Hyes Hfuel;
    (destruct fuel as [| fuel]; [lia |]);
    cbn [healthCheck_loop]; unfold act_bind at 1;
    rewrite createNewConnection_eq, Hm.
  - rewrite Nat.add_0_r in Hyes. rewrite Hyes. unfold act_bind.
    rewrite returnConnectionToPool_eq by (intros _; cbn; exact Hm).
    cbn [upd_node node set_currentNumConnections nodeState log_dial].
    rewrite Hst. cbn [state_ltb state_val Z.ltb Z.compare].
    rewrite setState_eq by (cbn; exact Hs).
    eexists. split; [reflexivity |].
    unfold recovered, quiescent. cbn.
    repeat split; try assumption; lia.
  - assert (Hfail : forall c', dial env (dials w) (Some hc) <> Connects c').
    { intros c'. specialize (Hno O ltac:(lia) c').
      rewrite Nat.add_0_r in Hno. exact Hno. }
    destruct (IH fuel
                (set_clock (clock w + thirtySeconds) (log_dial (Some hc) w)))
      as (w' & Hrun & Hst' & Hav & Hc & Hd & Hcl & Hlog & Hal & Hq).
    + split; cbn; assumption.
    + cbn. exact Hst.
    + intros j Hj c'. cbn [set_clock log_dial dials].
      replace (S (dials w) + j)%nat with (dials w + S j)%nat by lia.
      apply Hno. lia.
    + cbn [set_clock log_dial dials].
      replace (S (dials w) + N)%nat with (dials w + S N)%nat by lia.
      exact Hyes.
    + lia.
    + cbn [set_clock log_dial dials clock node available
           currentNumConnections closedLog allocs] in *.
      assert (Hgoal : exists w'',
                healthCheck_loop env fuel hc
                  (set_clock (clock w + thirtySeconds)
                     (log_dial (Some hc) w)) = Done true w''
                /\ recovered (S N) c w w'').
      { exists w'. split; [exact Hrun |]. unfold recovered.
        repeat split; try assumption; try apply Hq; lia. }
      destruct (dial env (dials w) (Some hc)) as [e | c0 e | c0] eqn:Hd0.
      * unfold act_bind at 1, time_Sleep, modify. exact Hgoal.
      * unfold act_bind at 1, time_Sleep, modify. exact Hgoal.
      * exfalso. exact (Hfail c0 eq_refl).
Qed.

Lemma healthCheck_loop_keeps_trying (hc : Command) (fuel : nat) :
  forall w : World,
    (forall j, (j < fuel)%nat ->
       forall c', dial env (dials w + j) (Some hc) <> Connects c') ->
    healthCheck_loop env fuel hc w =
      Done false
        (mkWorld (node w) (clock w + Z.of_nat fuel * thirtySeconds)
           (dials w + fuel) (dialLog w ++ replicate fuel (Some hc))
           (allocs w) (closedLog w) (expiring w) (healthChecks w)).
Proof.
  induction fuel as [| fuel IH]; intros w Hno.
  - cbn [healthCheck_loop replicate Z.of_nat]. unfold act_ret.
    rewrite app_nil_r, Nat.add_0_r, Z.mul_0_l, Z.add_0_r.
    destruct w; reflexivity.
  - cbn [healthCheck_loop]. unfold act_bind at 1.
    rewrite createNewConnection_eq.
    assert (Hfail : forall c', dial env (dials w) (Some hc) <> Connects c').
    { intros c'. specialize (Hno O ltac:(lia) c').
      rewrite Nat.add_0_r in Hno. exact Hno. }
    assert (Hrest : healthCheck_loop env fuel hc
                      (set_clock (clock w + thirtySeconds)
                         (log_dial (Some hc) w)) =
                    Done false
                      (mkWorld (node w)
                         (clock w + Z.of_nat (S fuel) * thirtySeconds)
                         (dials w + S fuel)
                         (dialLog w ++ replicate (S fuel) (Some hc))
                         (allocs w) (closedLog w) (expiring w)
                         (healthChecks w))).
    { rewrite IH.
      - cbn [set_clock log_dial node clock dials dialLog allocs closedLog
             expiring healthChecks replicate].
        rewrite <- app_assoc. cbn [app]. do 2 f_equal; lia.
      - intros j Hj c'. cbn [set_clock log_dial dials].
        replace (S (dials w) + j)%nat with (dials w + S j)%nat by lia.
        apply Hno. lia. }
    destruct (dial env (dials w) (Some hc)) as [e | c0 e | c0] eqn:Hd0.
    + unfold act_bind at 1, time_Sleep, modify. exact Hrest.
    + unfold act_bind at 1, time_Sleep, modify. exact Hrest.
    + exfalso. exact (Hfail c0 eq_refl).
Qed.

(** X11: [healthCheck] checks no state.  Started in any state with
    free locks, it sets HEALTH_CHECKING and retries creation with one
    probe, thirty seconds apart: when [N] attempts fail and the next
    connects, it ends with the node RUNNING, the new connection at the
    back of the idle queue with its in-flight flag cleared, the count
    one higher, [N + 1] attempts made and nothing closed; as long as
    every attempt fails, the node stays in HEALTH_CHECKING with pool
    and count untouched. *)
Theorem healthCheck_recovers_at_first_connection
  (N fuel : nat) (w : World) :
  quiescent w ->
  (forall j, (j < Nat.min N fuel)%nat ->
     forall c', dial env (dials w + j) (Some (probe_of w)) <> Connects c') ->
  ((N < fuel)%nat ->
   forall c, dial env (dials w + N) (Some (probe_of w)) = Connects c ->
   exists w',
     healthCheck env fuel w = Done true w' /\
     nodeState (node w') = NODE_RUNNING /\
     available (node w') =
       available (node w) ++ [Some (set_inFlight false c)] /\
     currentNumConnections (node w') =
       wrap16 (currentNumConnections (node w) + 1) /\
     dials w' = (dials w + S N)%nat /\
     dialLog w' = dialLog w ++ replicate (S N) (Some (probe_of w)) /\
     clock w' = clock w + Z.of_nat N * thirtySeconds /\
     closedLog w' = closedLog w /\
     quiescent w')
  /\
  ((fuel <= N)%nat ->
   exists w',
     healthCheck env fuel w = Done false w' /\
     nodeState (node w') = NODE_HEALTH_CHECKING /\
     available (node w') = available (node w) /\
     currentNumConnections (node w') = currentNumConnections (node w) /\
     dials w' = (dials w + fuel)%nat /\
     closedLog w' = closedLog w).
Proof.
  intros [Hm Hs] Hno.
  assert (Hhead : healthCheck env fuel w =
            healthCheck_loop env fuel (probe_of w)
              (bump_allocs (upd_node (set_nodeState NODE_HEALTH_CHECKING) w))).
  { unfold healthCheck. unfold act_bind at 1.
    rewrite setState_eq by exact Hs. unfold act_bind at 1.
    rewrite getHealthCheckCommand_eq. reflexivity. }
  rewrite Hhead. split.
  - intros Hlt c Hyes.
    destruct (healthCheck_loop_recovers (probe_of w) c N fuel
                (bump_allocs
                   (upd_node (set_nodeState NODE_HEALTH_CHECKING) w)))
      as (w' & Hrun & Hst' & Hav & Hc & Hd & Hcl & Hlog & Hal & Hq);
      [split; cbn; assumption | reflexivity
      | intros j Hj; apply Hno; lia | exact Hyes | exact Hlt |].
    destruct (healthCheck_loop_spec env (probe_of w) fuel
                (bump_allocs
                   (upd_node (set_nodeState NODE_HEALTH_CHECKING) w)))
      as (b & k & w2 & Hrun2 & (Hdl & Hdk & _) & _);
      [split; cbn; assumption | reflexivity |].
    rewrite Hrun in Hrun2. injection Hrun2 as <- <-.
    cbn [bump_allocs upd_node node set_nodeState available
         currentNumConnections dials clock closedLog dialLog] in *.
    exists w'. split; [exact Hrun |].
    assert (k = S N) by lia. subst k.
    repeat split; try assumption; apply Hq.
  - intros Hge.
    rewrite healthCheck_loop_keeps_trying
      by (intros j Hj; apply Hno; lia).
    eexists. split; [reflexivity |]. cbn. repeat split.
Qed.

End HealthCheckRuns.

Lemma healthCheck_recovers_at_first_connection_witness :
  exists w',
    healthCheck (Sample.env_after 2) 5 (Sample.running NODE_ERROR [] 0) =
      Done true w' /\
    nodeState (node w') = NODE_RUNNING /\
    available (node w') = [Some (mkConn 12 false 0)] /\
    dials w' = 3%nat.
Proof.
  destruct (healthCheck_recovers_at_first_connection (Sample.env_after 2)
              2 5 (Sample.running NODE_ERROR [] 0) (conj eq_refl eq_refl))
    as [Hrec _].
  - intros j Hj c'. cbn in Hj.
    destruct j as [| [| j]]; [discriminate | discriminate | lia].
  - destruct (Hrec ltac:(lia) (mkConn 12 false 0) eq_refl)
      as (w' & Hrun & Hst & Hav & _ & Hd & _).
    exists w'. split; [exact Hrun |]. split; [exact Hst |].
    split; [exact Hav | exact Hd].
Defined.

(** ** What a sweep keeps *)

Section SweepKeeps.

Context (env : Env).

(** Removal at [i] takes out the entry at [i] and nothing else. *)
Lemma swap_remove_Permutation {A} (d x : A) (i : nat) (l : list A) :
  l !! i = Some x ->
  l ≡ₚ x :: take (length l - 1)
              (<[i := default d (l !! (length l - 1)%nat)]> l).
Proof.
  intros Hi.
  assert (Hlen : (i < length l)%nat) by (eapply lookup_lt_Some; exact Hi).
  destruct (l !! (length l - 1)%nat) as [y |] eqn:Hy;
    [| apply lookup_ge_None in Hy; lia].
  cbn [default].
  assert (Hl : l = take (length l - 1) l ++ [y]).
  { rewrite <- (take_drop (length l - 1)%nat l) at 1. f_equal.
    rewrite (drop_S _ _ _ Hy), drop_ge by lia. reflexivity. }
  destruct (Nat.eq_dec i (length l - 1)%nat) as [-> | Hne].
  - rewrite take_insert_ge by lia.
    assert (x = y) by congruence. subst y.
    rewrite Hl at 1. symmetry. apply Permutation_cons_append.
  - rewrite take_insert_lt by lia.
    assert (Hi0 : take (length l - 1) l !! i = Some x)
      by (rewrite lookup_take_lt by lia; exact Hi).
    rewrite insert_take_drop by (rewrite length_take; lia).
    rewrite Hl at 1.
    rewrite <- (take_drop_middle _ _ _ Hi0) at 1.
    rewrite <- app_assoc. cbn [app].
    rewrite <- Permutation_middle. constructor.
    apply Permutation_app_head.
    rewrite <- Permutation_cons_append. reflexivity.
Qed.

(** However the loop ends, the queue it started with is the queue it
    leaves plus the connections it closed, and those were stale. *)
Lemma expire_loop_Permutation (fuel : nat) (now : Z) :
  forall (i count : nat) (w : World),
    let w' := final_world (expire_loop env fuel now i count w) in
    connMtx (node w') = connMtx (node w) /\
    exists cl : list connection,
      closedLog w' = closedLog w ++ cl /\
      available (node w) ≡ₚ available (node w') ++ map Some cl /\
      Forall (stale (idleTimeout (node w)) now) cl.
Proof.
  assert (Hsame : forall A (o : outcome A) (w : World),
            final_world o = w ->
            connMtx (node (final_world o)) = connMtx (node w) /\
            exists cl : list connection,
              closedLog (final_world o) = closedLog w ++ cl /\
              available (node w) ≡ₚ
                available (node (final_world o)) ++ map Some cl /\
              Forall (stale (idleTimeout (node w)) now) cl).
  { intros A o w ->. split; [reflexivity |]. exists [].
    cbn [map]. rewrite !app_nil_r.
    split; [reflexivity | split; [reflexivity | constructor]]. }
  induction fuel as [| fuel IH]; intros i count w; cbn zeta.
  - rewrite expire_loop_O.
    destruct (i <? length (available (node w)))%nat; apply Hsame; reflexivity.
  - rewrite expire_loop_S.
    destruct (i <? length (available (node w)))%nat;
      [| apply Hsame; reflexivity].
    destruct (currentNumConnections (node w) <=? minConnections (node w));
      [apply Hsame; reflexivity |].
    destruct (available (node w) !! i) as [[conn |] |] eqn:Hlook;
      try (apply Hsame; reflexivity).
    destruct (idleTimeout (node w) <=? time_Sub now (lastUsed conn)) eqn:Hst.
    + apply Z.leb_le in Hst.
      destruct (IH i (S count) (expire_remove i conn w))
        as (Hm & cl & Hlog & Hperm & Hstale).
      cbn [expire_remove log_close upd_node node set_currentNumConnections
           set_available available closedLog connMtx idleTimeout]
        in Hm, Hlog, Hperm, Hstale.
      split; [exact Hm |]. exists (conn :: cl).
      split; [rewrite Hlog, <- app_assoc; reflexivity |].
      split; [| constructor; assumption].
      rewrite (swap_remove_Permutation None (Some conn) i _ Hlook).
      rewrite Hperm. cbn [map]. apply Permutation_middle.
    + apply IH.
Qed.

(** X12: a sweep loses no connection, however it ends: the idle queue
    it started with is, up to order, the queue it leaves plus the
    connections it closed, each of which had been idle for the timeout
    or longer; so a connection used more recently than that is still
    in the queue afterwards. *)
Theorem expireSweep_loses_no_connection (w : World) :
  let w' := final_world (expireSweep env w) in
  exists cl : list connection,
    closedLog w' = closedLog w ++ cl /\
    available (node w) ≡ₚ available (node w') ++ map Some cl /\
    Forall (stale (idleTimeout (node w)) (clock w)) cl /\
    (forall c, Some c ∈ available (node w) ->
       ~ stale (idleTimeout (node w)) (clock w) c ->
       Some c ∈ available (node w')).
Proof.
  cbn zeta.
  assert (Hmain : exists cl : list connection,
    closedLog (final_world (expireSweep env w)) = closedLog w ++ cl /\
    available (node w) ≡ₚ
      available (node (final_world (expireSweep env w))) ++ map Some cl /\
    Forall (stale (idleTimeout (node w)) (clock w)) cl).
  { destruct (connMtx (node w)) eqn:Hm.
    - unfold expireSweep, act_bind, connMtx_Lock. rewrite Hm. cbn.
      exists []. cbn [map]. rewrite !app_nil_r.
      split; [reflexivity | split; [reflexivity | constructor]].
    - rewrite expireSweep_eq by exact Hm.
      pose proof (expire_loop_Permutation (length (available (node w)))
                    (clock w) 0 0 (upd_node (set_connMtx true) w))
        as (Hlock & cl & Hlog & Hperm & Hstale).
      cbn [upd_node node set_connMtx available closedLog connMtx idleTimeout]
        in Hlock, Hlog, Hperm, Hstale.
      exists cl.
      destruct (expire_loop env _ _ _ _ _) as [r w1 | msg w1 | w1];
        cbn [final_world] in *; try (repeat split; assumption).
      unfold act_bind, connMtx_Unlock, act_ret. rewrite Hlock. cbn.
      repeat split; assumption. }
  destruct Hmain as (cl & Hlog & Hperm & Hstale).
  exists cl. split; [exact Hlog |]. split; [exact Hperm |].
  split; [exact Hstale |].
  intros c Hin Hfresh. rewrite Hperm in Hin.
  apply elem_of_app in Hin. destruct Hin as [Hin | Hin]; [exact Hin |].
  exfalso. apply list_elem_of_fmap in Hin.
  destruct Hin as (c' & Heq & Hc'). injection Heq as <-.
  eapply Forall_forall in Hstale; [| exact Hc']. exact (Hfresh Hstale).
Qed.

(** X13: a second sweep at the same instant finds nothing to do: after
    a sweep of a queue of live connections has returned, sweeping
    again with the clock unchanged closes no connection and leaves the
    node as it is. *)
Theorem expireSweep_twice_is_once (w w' : World) (r : option nat) :
  uint16 (currentNumConnections (node w)) ->
  0 <= minConnections (node w) ->
  connMtx (node w) = false ->
  Forall is_Some (available (node w)) ->
  expireSweep env w = Done r w' ->
  expireSweep env w' = Done (Some O) w'.
Proof.
  intros Hk Hmin Hm Hsome Hrun.
  destruct (expireSweep_total env w Hk Hmin Hm Hsome)
    as (cl & w1 & Hrun1 & Hlog & Hstale & Hin & Hsub & Hc & Hlen
        & Hmn & Hnil & Hend & Hframe).
  rewrite Hrun in Hrun1. injection Hrun1 as -> <-.
  unfold same_but_pool in Hframe.
  destruct Hframe as (Hmin' & _ & Hidle' & _ & _ & Hm' & _ & _ & Hclock'
                      & _).
  assert (Hk' : uint16 (currentNumConnections (node w'))).
  { unfold uint16 in *. destruct cl as [| c0 cl0].
    - cbn in Hc. lia.
    - specialize (Hmn ltac:(discriminate)). cbn [length] in Hc. lia. }
  assert (Hsome' : Forall is_Some (available (node w'))).
  { eapply Forall_impl; [exact Hsub |]. cbn. intros x Hx.
    eapply Forall_forall in Hsome; [exact Hsome | exact Hx]. }
  destruct (expireSweep_total env w' Hk' ltac:(lia) ltac:(congruence) Hsome')
    as (cl2 & w2 & Hrun2 & _ & Hstale2 & Hin2 & _ & Hc2 & _
        & Hmn2 & Hnil2 & _).
  destruct cl2 as [| c2 cl2].
  - rewrite Hrun2, (Hnil2 eq_refl). reflexivity.
  - exfalso. specialize (Hmn2 ltac:(discriminate)). cbn [length] in Hc2.
    destruct Hend as [Hend | Hend]; [lia |].
    inversion Hstale2 as [| ? ? Hs2 _]. subst.
    inversion Hin2 as [| ? ? Hi2 _]. subst.
    eapply Forall_forall in Hend; [| exact Hi2].
    rewrite Hidle', Hclock' in Hs2. exact (Hend c2 eq_refl Hs2).
Qed.

End SweepKeeps.

Lemma expireSweep_twice_is_once_witness :
  exists w',
    expireSweep Sample.env_ok
      (set_clock 1006
         (Sample.running NODE_RUNNING
            [Some Sample.connA; Some Sample.connB; Some Sample.connX] 3)) =
      Done (Some 2%nat) w' /\
    expireSweep Sample.env_ok w' = Done (Some O) w'.
Proof.
  destruct (expireSweep Sample.env_ok
              (set_clock 1006
                 (Sample.running NODE_RUNNING
                    [Some Sample.connA; Some Sample.connB; Some Sample.connX]
                    3))) as [r w' | |] eqn:Hrun;
    vm_compute in Hrun; try discriminate.
  injection Hrun as <- Hw. exists w'. split; [reflexivity |].
  apply (expireSweep_twice_is_once Sample.env_ok
           (set_clock 1006
              (Sample.running NODE_RUNNING
                 [Some Sample.connA; Some Sample.connB; Some Sample.connX] 3))
           w' (Some 2%nat)).
  - unfold uint16. cbn. lia.
  - cbn. lia.
  - reflexivity.
  - repeat constructor; eexists; reflexivity.
  - rewrite <- Hw. vm_compute. reflexivity.
Defined.

(** ** Dispatch of a command that may be nil *)

Section DispatchInterface.

Context (env : Env).

(** [Execute] takes a [Command], an interface value, which may be nil:
    [None] here.  [Execute_run_iface] is the tail of [Execute] with the
    argument of [logDebug] at line 215: [cmd.Name()] is evaluated once
    [conn] is known not to be nil and before [conn.execute], and calling
    a method on a nil interface panics. *)
Definition Execute_run_iface (cmd : option Command)
  (conn : option connection) : act (bool * option error) :=
  match conn with
  | None => panic "expected connection"
  | Some c =>
      match cmd with
      | None => panic "invalid memory address or nil pointer dereference"
      | Some cm =>
          let r := conn_execute env c cm in
          let c' := mkConn (connId c) (exec_inFlight r) (exec_lastUsed r) in
          match exec_err r with
          | None =>
              returnConnectionToPool env c' true;;;
              act_ret (true, None)
          | Some e =>
              returnConnectionToPool env c' true;;;
              act_ret (false, Some e)
          end
      end
  end.

Definition Execute_iface (cmd : option Command)
  : act (bool * option error) :=
  err <- stateCheck [NODE_RUNNING; NODE_HEALTH_CHECKING];;
  match err with
  | Some _ => act_ret (false, err)
  | None =>
      stateMtx_RLock;;;
      with_defer stateMtx_RUnlock
        (s <- gets (fun w => nodeState (node w));;
         if state_eqb s NODE_RUNNING then
           conn <- getAvailableConnection;;
           match conn with
           | Some _ => Execute_run_iface cmd conn
           | None =>
               connMtx_Lock;;;
               with_defer connMtx_Unlock
                 (k <- gets (fun w => currentNumConnections (node w));;
                  m <- gets (fun w => maxConnections (node w));;
                  if k <? m then
                    r <- createNewConnection env None;;
                    match r with
                    | (Some c, None) =>
                        connMtx_Unlock;;;
                        Execute_run_iface cmd (Some c)
                    | (_, err') =>
                        go_healthCheck;;;
                        act_ret (false, err')
                    end
                  else act_ret (false, err))
           end
         else act_ret (false, err))
  end.

(** On a command that is not nil this is [Execute]. *)
Lemma Execute_iface_Some (cmd : Command) (w : World) :
  Execute_iface (Some cmd) w = Execute env cmd w.
Proof. reflexivity. Qed.

(** [k] calls in a row with the same argument. *)
Fixpoint Execute_iface_n (cmd : option Command) (k : nat)
  : act (list (bool * option error)) :=
  match k with
  | O => act_ret []
  | S k' =>
      r <- Execute_iface cmd;;
      rs <- Execute_iface_n cmd k';;
      act_ret (r :: rs)
  end.

Lemma Execute_iface_n_Some (cmd : Command) (k : nat) (w : World) :
  Execute_iface_n (Some cmd) k w = Execute_n env cmd k w.
Proof.
  revert w. induction k as [| k IH]; intros w; [reflexivity |].
  cbn [Execute_iface_n Execute_n]. unfold act_bind at 1 3.
  rewrite Execute_iface_Some.
  destruct (Execute env cmd w) as [r w1 | |]; try reflexivity.
  unfold act_bind. rewrite IH. reflexivity.
Qed.

Local Arguments Execute_run_iface : simpl never.

(** The state is not RUNNING: the command is not looked at. *)
Lemma Execute_iface_not_running_eq (cmd : option Command) (w : World) :
  writer (stateMtx (node w)) = false ->
  nodeState (node w) <> NODE_RUNNING ->
  Execute_iface cmd w =
    Done (false,
          if state_eqb (nodeState (node w)) NODE_HEALTH_CHECKING then None
          else Some (IllegalState [NODE_RUNNING; NODE_HEALTH_CHECKING]
                       (nodeState (node w)))) w.
Proof.
  intros Hw Hst. unfold Execute_iface. unfold act_bind at 1.
  rewrite stateCheck_eq by exact Hw.
  destruct (nodeState (node w)) eqn:Hs; try congruence; try reflexivity.
  open_world w. destruct stateMtx0 as [r wr]. cbn in Hw. subst wr.
  run. reflexivity.
Qed.

(** RUNNING, a connection at the front, a nil command: the connection
    has left the queue when [cmd.Name()] panics, and no deferred call
    puts it back. *)
Lemma Execute_iface_nil_eq (c : connection)
  (rest : list (option connection)) (w : World) :
  connMtx (node w) = false ->
  writer (stateMtx (node w)) = false ->
  nodeState (node w) = NODE_RUNNING ->
  available (node w) = Some c :: rest ->
  Execute_iface None w =
    Panic "invalid memory address or nil pointer dereference"
      (upd_node (set_available rest) w).
Proof.
  intros Hm Hw Hs Hav. unfold Execute_iface. unfold act_bind at 1.
  rewrite stateCheck_eq by exact Hw. rewrite Hs.
  cbn [existsb state_eqb state_val Z.eqb orb].
  open_world w. destruct stateMtx0 as [r wr]. cbn in Hw. subst wr.
  run. unfold getAvailableConnection. run.
  unfold Execute_run_iface, panic. reflexivity.
Qed.

(** RUNNING with nothing usable at the front: the command is looked at
    only after a creation that connects, which does not come back. *)
Lemma Execute_iface_create_eq (cmd : option Command) (w : World) :
  connMtx (node w) = false ->
  writer (stateMtx (node w)) = false ->
  nodeState (node w) = NODE_RUNNING ->
  head (available (node w)) = None \/ head (available (node w)) = Some None ->
  let w0 := upd_node (set_available (tail (available (node w)))) w in
  if currentNumConnections (node w) <? maxConnections (node w) then
    match dial env (dials w) None with
    | NewConnectionFails e =>
        Execute_iface cmd w =
          Done (false, Some e) (bump_healthChecks (log_dial None w0))
    | ConnectFails c e =>
        Execute_iface cmd w =
          Done (false, Some e) (bump_healthChecks (log_dial None w0))
    | Connects c => exists w', Execute_iface cmd w = Blocked w'
    end
  else Execute_iface cmd w = Done (false, None) w0.
Proof.
  intros Hm Hw Hs Hhd. unfold Execute_iface. unfold act_bind at 1.
  rewrite stateCheck_eq by exact Hw. rewrite Hs.
  cbn [existsb state_eqb state_val Z.eqb orb].
  open_world w. destruct stateMtx0 as [r wr]. cbn in Hw. subst wr.
  destruct available0 as [| [c0 |] rest]; cbn in Hhd;
    try (destruct Hhd; discriminate);
    run; unfold getAvailableConnection; run;
    destruct (currentNumConnections0 <? maxConnections0); try reflexivity;
    unfold createNewConnection; run;
    destruct (dial env dials0 None); run;
    try reflexivity; eexists; reflexivity.
Qed.

End DispatchInterface.

Section DispatchOutcomes.

Context (env : Env).

(** X8: on a RUNNING node with free locks and connections at the front
    of the idle queue, each [Execute] of a command that is not nil runs
    it on the front connection and moves that connection to the back
    with its in-flight flag cleared, reporting "executed" exactly when
    the command returned no error; so [k] such calls in a row use the
    first [k] connections once each, in queue order, and a full round
    over a queue of live connections leaves them in their original
    order.  [Execute] of a nil command panics at [cmd.Name()] with the
    front connection already taken from the queue, and it is not put
    back. *)
Theorem Execute_uses_connections_in_turn
  (cmd : Command) (cs : list connection) (tl : list (option connection))
  (k : nat) (w : World) :
  connMtx (node w) = false ->
  writer (stateMtx (node w)) = false ->
  nodeState (node w) = NODE_RUNNING ->
  available (node w) = map Some cs ++ tl ->
  ((k <= length cs)%nat ->
   Execute_iface_n env (Some cmd) k w =
     Done (map (exec_outcome env cmd) (take k cs))
       (upd_node
          (set_available
             (map Some (drop k cs) ++ tl
              ++ map (fun c => Some (used env cmd c)) (take k cs)))
          w))
  /\
  (tl = [] ->
   Execute_iface_n env (Some cmd) (length cs) w =
     Done (map (exec_outcome env cmd) cs)
       (upd_node
          (set_available (map (fun c => Some (used env cmd c)) cs)) w))
  /\
  (forall c cs', cs = c :: cs' ->
   Execute_iface env None w =
     Panic "invalid memory address or nil pointer dereference"
       (upd_node (set_available (map Some cs' ++ tl)) w)).
Proof.
  intros Hm Hw Hs Hav. split; [| split].
  - intros Hk. rewrite Execute_iface_n_Some.
    apply Execute_n_spec; assumption.
  - intros ->. rewrite Execute_iface_n_Some.
    rewrite (Execute_n_spec env cmd (length cs) cs [] w Hm Hw Hs Hav)
      by reflexivity.
    rewrite take_ge, drop_all by reflexivity. reflexivity.
  - intros c cs' ->.
    apply (Execute_iface_nil_eq env c (map Some cs' ++ tl) w Hm Hw Hs Hav).
Qed.

(** X9: how a call of [Execute] with free locks ends is decided by the
    state, the front of the idle queue, the count, the network and the
    command.  It does not return exactly when the node is RUNNING,
    nothing usable is at the front of the queue, the count is below
    the maximum and the creation connects.  It panics exactly when the
    node is RUNNING, a connection is at the front and the command is
    nil; that connection is then gone from the queue.  In every other
    case it returns, with the live count, the log of closed
    connections, the state and both locks as they were and the queue
    no longer than before, and it reports "executed" exactly when a
    command that is not nil ran without error on the front connection
    of a RUNNING node. *)
Theorem Execute_outcomes (cmd : option Command) (w : World) :
  connMtx (node w) = false ->
  writer (stateMtx (node w)) = false ->
  let front := head (available (node w)) in
  ((exists w', Execute_iface env cmd w = Blocked w') <->
   (nodeState (node w) = NODE_RUNNING /\
    (front = None \/ front = Some None) /\
    currentNumConnections (node w) < maxConnections (node w) /\
    exists c, dial env (dials w) None = Connects c))
  /\
  ((exists msg w', Execute_iface env cmd w = Panic msg w') <->
   (nodeState (node w) = NODE_RUNNING /\
    cmd = None /\
    exists c, front = Some (Some c)))
  /\
  (forall msg w',
     Execute_iface env cmd w = Panic msg w' ->
     w' = upd_node (set_available (tail (available (node w)))) w)
  /\
  (forall r w',
     Execute_iface env cmd w = Done r w' ->
     currentNumConnections (node w') = currentNumConnections (node w) /\
     closedLog w' = closedLog w /\
     nodeState (node w') = nodeState (node w) /\
     connMtx (node w') = false /\
     stateMtx (node w') = stateMtx (node w) /\
     (length (available (node w')) <= length (available (node w)))%nat /\
     (fst r = true <->
      (nodeState (node w) = NODE_RUNNING /\
       exists c cm,
         front = Some (Some c) /\ cmd = Some cm /\
         exec_err (conn_execute env c cm) = None))).
Proof.
  intros Hm Hw front. subst front.
  assert (Hdec : nodeState (node w) = NODE_RUNNING \/
                 nodeState (node w) <> NODE_RUNNING)
    by (destruct (nodeState (node w)); auto; right; discriminate).
  destruct Hdec as [Hs | Hs].
  2:{ (* not RUNNING *)
      rewrite (Execute_iface_not_running_eq env cmd w Hw Hs).
      split; [| split; [| split]].
      - split; [intros (w' & H); discriminate | intros (H & _); congruence].
      - split; [intros (m & w' & H); discriminate
               | intros (H & _); congruence].
      - intros m w' H. discriminate.
      - intros r w' H. injection H as <- <-. cbn [fst].
        repeat split; try assumption; try lia; try discriminate.
        intros (H & _). congruence. }
  destruct (available (node w)) as [| [c |] rest] eqn:Hav; cbn [head tail].
  2:{ (* a connection at the front *)
      destruct cmd as [cm |].
      - rewrite Execute_iface_Some,
          (Execute_pool_eq env cm c rest w Hm Hw Hs Hav).
        split; [| split; [| split]].
        + split; [intros (w' & H); discriminate |].
          intros (_ & [H | H] & _); discriminate.
        + split; [intros (m & w' & H); discriminate |].
          intros (_ & H & _). discriminate.
        + intros m w' H. discriminate.
        + intros r w' H. injection H as <- <-.
          cbn [upd_node node set_available currentNumConnections closedLog
               nodeState connMtx stateMtx available].
          rewrite length_app. cbn [length].
          repeat split; try assumption; try lia.
          * unfold exec_outcome in H.
            exists c, cm. repeat split.
            destruct (exec_err (conn_execute env c cm));
              [discriminate | reflexivity].
          * intros (_ & c' & cm' & Hc & Hcm & He).
            injection Hc as <-. injection Hcm as <-.
            unfold exec_outcome. rewrite He. reflexivity.
      - rewrite (Execute_iface_nil_eq env c rest w Hm Hw Hs Hav).
        split; [| split; [| split]].
        + split; [intros (w' & H); discriminate |].
          intros (_ & [H | H] & _); discriminate.
        + split; [intros _ | intros _; eauto].
          split; [exact Hs |]. split; [reflexivity | eauto].
        + intros m w' H. injection H as _ <-. reflexivity.
        + intros r w' H. discriminate. }
  (* nothing usable at the front *)
  all: pose proof (Execute_iface_create_eq env cmd w Hm Hw Hs) as Hcreate;
    rewrite Hav in Hcreate; cbn [head tail] in Hcreate;
    specialize (Hcreate ltac:(auto)); cbn zeta in Hcreate;
    destruct (currentNumConnections (node w) <? maxConnections (node w))
      eqn:Hlt;
    [apply Z.ltb_lt in Hlt;
     destruct (dial env (dials w) None) as [e | c e | c] eqn:Hd;
     [rewrite Hcreate | rewrite Hcreate | destruct Hcreate as [wb ->]]
    | apply Z.ltb_ge in Hlt; rewrite Hcreate];
    ((split; [| split; [| split]]);
    [ (* blocked iff *)
      first
        [ solve [ split; [intros (w' & H); discriminate |];
                  intros (_ & _ & Hlt' & c' & Hc');
                  first [lia | discriminate] ]
        | solve [ split; [intros _ | intros _; eauto];
                  repeat split; auto; eauto ] ]
    | (* panic iff *)
      split; [intros (m & w' & H); discriminate |];
      intros (_ & _ & c' & Hc'); discriminate
    | (* panic world *)
      intros m w' H; discriminate
    | (* returns *)
      intros r w' H; try discriminate; injection H as <- <-;
      cbn [upd_node node set_available currentNumConnections closedLog
           nodeState connMtx stateMtx available bump_healthChecks log_dial
           length fst];
      repeat split; try assumption; try lia; try discriminate;
      intros (_ & c' & cm' & Hc' & _); discriminate ]).
Qed.

End DispatchOutcomes.

Lemma Execute_uses_connections_in_turn_witness :
  Execute_iface_n Sample.env_ok (Some Sample.ping) 2
    (Sample.running NODE_RUNNING [Some Sample.connA; Some Sample.connB] 2) =
    Done [(true, None); (true, None)]
      (Sample.running NODE_RUNNING
         [Some (mkConn 1 false 50); Some (mkConn 2 false 50)] 2)
  /\
  Execute_iface Sample.env_ok None
    (Sample.running NODE_RUNNING [Some Sample.connA; Some Sample.connB] 2) =
    Panic "invalid memory address or nil pointer dereference"
      (Sample.running NODE_RUNNING [Some Sample.connB] 2).
Proof.
  pose proof (Execute_uses_connections_in_turn Sample.env_ok Sample.ping
                [Sample.connA; Sample.connB] [] 2
                (Sample.running NODE_RUNNING
                   [Some Sample.connA; Some Sample.connB] 2)
                eq_refl eq_refl eq_refl eq_refl) as (_ & Hround & Hnil).
  split.
  - exact (Hround eq_refl).
  - exact (Hnil Sample.connA [Sample.connB] eq_refl).
Defined.

Lemma Execute_outcomes_witness :
  (exists w',
     Execute_iface Sample.env_ok (Some Sample.ping)
       (Sample.running NODE_RUNNING [] 1) = Blocked w')
  /\
  (forall r w',
     Execute_iface Sample.env_down (Some Sample.ping)
       (Sample.running NODE_RUNNING [Some Sample.connA; Some Sample.connB] 2)
       = Done r w' ->
     currentNumConnections (node w') = 2 /\ closedLog w' = []).
Proof.
  split.
  - apply (proj1 (Execute_outcomes Sample.env_ok (Some Sample.ping)
                    (Sample.running NODE_RUNNING [] 1) eq_refl eq_refl)).
    split; [reflexivity |]. split; [left; reflexivity |].
    split; [cbn; lia |]. exists (mkConn 10 false 0). reflexivity.
  - intros r w' H.
    destruct (proj2 (proj2 (proj2
                (Execute_outcomes Sample.env_down (Some Sample.ping)
                   (Sample.running NODE_RUNNING
                      [Some Sample.connA; Some Sample.connB] 2)
                   eq_refl eq_refl))) r w' H) as (Hc & Hl & _).
    split; [exact Hc | exact Hl].
Defined.

(** ** After [Stop] *)

Section AfterStop.

Context (env : Env).

(** One round of the health-check loop whose creation connects, in
    whatever state the node is. *)
Lemma healthCheck_loop_first_connects
  (hc : Command) (c : connection) (fuel : nat) (w : World) :
  quiescent w ->
  dial env (dials w) (Some hc) = Connects c ->
  healthCheck_loop env (S fuel) hc w =
    Done true
      (upd_node (set_nodeState NODE_RUNNING)
         (let w1 :=
            upd_node (fun n => set_currentNumConnections
                         (wrap16 (currentNumConnections n + 1)) n)
              (log_dial (Some hc) w) in
          if state_ltb (nodeState (node w)) NODE_SHUTTING_DOWN
          then pooled c w1 else dropped c w1)).
Proof.
  intros [Hm Hs] Hd. cbn [healthCheck_loop]. unfold act_bind at 1.
  rewrite createNewConnection_eq, Hm, Hd. unfold act_bind.
  rewrite returnConnectionToPool_eq by (intros _; cbn; exact Hm).
  cbn [upd_node node set_currentNumConnections nodeState log_dial].
  destruct (state_ltb (nodeState (node w)) NODE_SHUTTING_DOWN);
    rewrite setState_eq by (cbn; exact Hs); reflexivity.
Qed.

(** X7: when [Stop] returns nil, whatever the queue and the count
    were, the node is in SHUTDOWN or in ERROR with both locks free, and
    [Start], [Stop] and [Execute] called in that state are refused
    with the illegal-state error and change nothing.  The state is not
    final: a health-check loop that makes its next attempt after
    [Stop] (which accepts HEALTH_CHECKING) and connects sets RUNNING
    again, so that the state check of [Execute] passes; after SHUTDOWN
    its connection is closed on return to the pool, after ERROR it is
    appended to the idle queue. *)
Theorem Stop_holds_until_health_check_connects (w w' : World) :
  Stop env w = Done None w' ->
  let s := nodeState (node w') in
  (s = NODE_SHUTDOWN \/ s = NODE_ERROR) /\
  quiescent w' /\
  (forall cmd,
     Start env w' = Done (Some (IllegalState [NODE_CREATED] s)) w' /\
     Stop env w' =
       Done (Some (IllegalState [NODE_CREATED; NODE_HEALTH_CHECKING] s)) w' /\
     Execute_iface env cmd w' =
       Done (false,
             Some (IllegalState [NODE_RUNNING; NODE_HEALTH_CHECKING] s)) w')
  /\
  (forall hc c fuel,
     dial env (dials w') (Some hc) = Connects c ->
     exists w'',
       healthCheck_loop env (S fuel) hc w' = Done true w'' /\
       nodeState (node w'') = NODE_RUNNING /\
       stateCheck [NODE_RUNNING; NODE_HEALTH_CHECKING] w'' = Done None w'' /\
       (s = NODE_SHUTDOWN ->
        available (node w'') = available (node w') /\
        closedLog w'' = closedLog w' ++ [c]) /\
       (s = NODE_ERROR ->
        available (node w'') =
          available (node w') ++ [Some (set_inFlight false c)] /\
        closedLog w'' = closedLog w')).
Proof.
  intros Hstop.
  assert (Hfinal : (nodeState (node w') = NODE_ERROR \/
                    nodeState (node w') = NODE_SHUTDOWN) /\
                   quiescent w').
  { revert Hstop. unfold Stop. unfold act_bind at 1.
    destruct (stateCheck [NODE_CREATED; NODE_HEALTH_CHECKING] w)
      as [err w0 | |]; [| discriminate ..].
    destruct err as [e |]; [unfold act_ret; discriminate |].
    unfold act_bind at 1.
    destruct (stop_send w0) as [u1 w1 | |]; [| discriminate ..].
    unfold act_bind at 1.
    destruct (expireTicker_Stop w1) as [u2 w2 | |]; [| discriminate ..].
    unfold act_bind at 1.
    destruct (setState NODE_SHUTTING_DOWN w2) as [u3 w3 | |];
      [| discriminate ..].
    unfold act_bind at 1.
    destruct (shutdown env w3) as [r w4 | |] eqn:Hsd; [| discriminate ..].
    unfold act_ret. intros H. injection H as <-.
    exact (shutdown_Done_state env w3 w4 r Hsd). }
  destruct Hfinal as [Hst [Hm Hs]]. cbn zeta.
  assert (Hw : writer (stateMtx (node w')) = false)
    by (rewrite Hs; reflexivity).
  split; [destruct Hst; auto |]. split; [split; assumption |]. split.
  - intros cmd. repeat split.
    + unfold Start. unfold act_bind at 1. rewrite stateCheck_eq by exact Hw.
      destruct Hst as [-> | ->]; reflexivity.
    + unfold Stop. unfold act_bind at 1. rewrite stateCheck_eq by exact Hw.
      destruct Hst as [-> | ->]; reflexivity.
    + rewrite Execute_iface_not_running_eq
        by (try exact Hw; destruct Hst as [-> | ->]; discriminate).
      destruct Hst as [-> | ->]; reflexivity.
  - intros hc c fuel Hd.
    rewrite (healthCheck_loop_first_connects hc c fuel w' (conj Hm Hs) Hd).
    eexists. split; [reflexivity |]. split; [reflexivity |]. split.
    + rewrite stateCheck_eq
        by (destruct Hst as [-> | ->]; cbn; rewrite Hs; reflexivity).
      reflexivity.
    + split; intros Hs'; rewrite Hs'; cbn; split; reflexivity.
Qed.

End AfterStop.

Lemma Stop_holds_until_health_check_connects_witness :
  exists w' w'',
    Stop Sample.env_ok (Sample.running NODE_HEALTH_CHECKING [] 0) =
      Done None w' /\
    nodeState (node w') = NODE_SHUTDOWN /\
    healthCheck_loop Sample.env_ok 1 Sample.ping w' = Done true w'' /\
    nodeState (node w'') = NODE_RUNNING /\
    closedLog w'' = [mkConn 10 false 0].
Proof.
  destruct (Stop Sample.env_ok (Sample.running NODE_HEALTH_CHECKING [] 0))
    as [[e |] w' | |] eqn:Hstop; vm_compute in Hstop; try discriminate.
  assert (Hstop' : Stop Sample.env_ok
                     (Sample.running NODE_HEALTH_CHECKING [] 0) = Done None w')
    by (rewrite <- Hstop; vm_compute; reflexivity).
  destruct (Stop_holds_until_health_check_connects Sample.env_ok
              (Sample.running NODE_HEALTH_CHECKING [] 0) w' Hstop')
    as (_ & _ & _ & Hloop).
  injection Hstop as Hw'.
  destruct (Hloop Sample.ping (mkConn 10 false 0) O)
    as (w'' & Hrun & Hst'' & _ & Hsd & _);
    [rewrite <- Hw'; reflexivity |].
  exists w', w''. split; [reflexivity |].
  split; [rewrite <- Hw'; reflexivity |].
  split; [exact Hrun |]. split; [exact Hst'' |].
  destruct (Hsd ltac:(rewrite <- Hw'; reflexivity)) as [_ Hcl].
  rewrite Hcl, <- Hw'. reflexivity.
Defined.
